(** * MockMate interview simulator: the session page, the setup page and
      the API client, embedded as Rocq functions.

    The session page is a React function component.  A handler runs inside
    the closure of the render that created it: every state variable it READS
    is the value of that render, and every [setX] it calls only QUEUES an
    update that is applied for the next render.  The handlers below therefore
    take two arguments: the render snapshot [r] they read from, and the world
    [w] on which the queued updates and the outside effects (localStorage,
    router) are applied in program order. *)

From Stdlib Require Import List ZArith NArith Bool String Ascii Lia.
From Stdlib Require Import DecimalString DecimalN.
Set Warnings "-register-all".
Import ListNotations.
Open Scope string_scope.
Open Scope nat_scope.
Open Scope list_scope.

(** ** JavaScript strings: sequences of UTF-16 code units *)

Definition jsstring := list N.

Definition js (s : string) : jsstring :=
  map N_of_ascii (list_ascii_of_string s).

(** ECMAScript [WhiteSpace] and [LineTerminator] code units, the ones
    [String.prototype.trim] strips. *)
Definition isWhiteSpace (c : N) : bool :=
  ((9 <=? c) && (c <=? 13) || (c =? 32) || (c =? 160) || (c =? 5760)
   || (8192 <=? c) && (c <=? 8202) || (c =? 8232) || (c =? 8233)
   || (c =? 8239) || (c =? 8287) || (c =? 12288) || (c =? 65279))%N.

Fixpoint trimStart (s : jsstring) : jsstring :=
  match s with
  | c :: s' => if isWhiteSpace c then trimStart s' else s
  | [] => []
  end.

Definition trimEnd (s : jsstring) : jsstring := rev (trimStart (rev s)).

Definition trim (s : jsstring) : jsstring := trimEnd (trimStart s).

(** Truthiness of a string: every string but the empty one. *)
Definition truthy (s : jsstring) : bool :=
  match s with [] => false | _ :: _ => true end.

(** ** Data of the session page (part_003) *)

Inductive QuestionType := technical | behavioral.

Record Question := mkQuestion {
  q_id : jsstring;
  q_text : jsstring;
  q_type : QuestionType
}.

Record InterviewConfig := mkConfig {
  role : jsstring;
  customJobDescription : jsstring;
  interviewType : jsstring;
  difficulty : Z;
  duration : Z;
  inputMethod : jsstring
}.

Inductive ItemType := ty_question | ty_answer.

Definition ItemType_eqb (a b : ItemType) : bool :=
  match a, b with
  | ty_question, ty_question | ty_answer, ty_answer => true
  | _, _ => false
  end.

(** One element of the [conversation] array; [timestamp] is the value of
    [new Date()] in milliseconds. *)
Record ConversationItem := mkItem {
  type : ItemType;
  content : jsstring;
  timestamp : Z
}.

(** The [useState] cells of [InterviewSessionPage].  [totalQuestions] has no
    setter ([const [totalQuestions] = useState(8)]), so it is a constant.
    [speechRecognition] and [speechSupported] are set together, once, in
    the mount effect: one cell stands for both. *)
Definition totalQuestions : nat := 8.

Record State := mkState {
  config : option InterviewConfig;
  currentQuestion : option Question;
  questionIndex : nat;
  answer : jsstring;
  isRecording : bool;
  isLoading : bool;
  timeRemaining : Z;
  sessionStarted : bool;
  conversation : list ConversationItem;
  error : jsstring;
  speechSupported : bool
}.

Definition initialState : State :=
  mkState None None 0 [] false false 0 false [] [] false.

(** The object [endInterview] writes under the key [lastInterview]. *)
Record InterviewData := mkData {
  d_config : option InterviewConfig;
  d_conversation : list ConversationItem;
  completedAt : Z;
  questionsAnswered : nat;
  d_totalQuestions : nat
}.

(** What the page does to the outside, in program order. *)
Inductive Stored :=
| SConfig (c : InterviewConfig)
| SData (d : InterviewData).

Inductive Effect :=
| SetItem (key : string) (v : Stored)
| Push (path : string)
| Alert (msg : string)
| RecognitionStart
| RecognitionStop.

(** The page together with the browser around it.  [localStorage] holds two
    keys; a value is kept structured, [JSON.stringify] followed by
    [JSON.parse] giving back the same fields.  [timerArmed] says that the
    timeout held in [timerRef] has neither fired nor been cleared. *)
Record World := mkWorld {
  st : State;
  mounted : bool;
  timerArmed : bool;
  ls_interviewConfig : option InterviewConfig;
  ls_lastInterview : option InterviewData;
  log : list Effect
}.

Definition initialWorld (saved : option InterviewConfig) : World :=
  mkWorld initialState false false saved None [].

(** *** Queued state updates *)

Definition Handler := World -> World.

Definition seq (f g : Handler) : Handler := fun w => g (f w).
Infix ";;" := seq (at level 61, left associativity).

Definition skip : Handler := fun w => w.

Definition upd (f : State -> State) : Handler := fun w =>
  mkWorld (f (st w)) (mounted w) (timerArmed w)
          (ls_interviewConfig w) (ls_lastInterview w) (log w).

Definition setConfig (c : option InterviewConfig) : Handler :=
  upd (fun s => mkState c (currentQuestion s) (questionIndex s) (answer s)
        (isRecording s) (isLoading s) (timeRemaining s) (sessionStarted s)
        (conversation s) (error s) (speechSupported s)).

Definition setCurrentQuestion (q : option Question) : Handler :=
  upd (fun s => mkState (config s) q (questionIndex s) (answer s)
        (isRecording s) (isLoading s) (timeRemaining s) (sessionStarted s)
        (conversation s) (error s) (speechSupported s)).

Definition setQuestionIndex (f : nat -> nat) : Handler :=
  upd (fun s => mkState (config s) (currentQuestion s) (f (questionIndex s))
        (answer s) (isRecording s) (isLoading s) (timeRemaining s)
        (sessionStarted s) (conversation s) (error s) (speechSupported s)).

Definition setAnswer (f : jsstring -> jsstring) : Handler :=
  upd (fun s => mkState (config s) (currentQuestion s) (questionIndex s)
        (f (answer s)) (isRecording s) (isLoading s) (timeRemaining s)
        (sessionStarted s) (conversation s) (error s) (speechSupported s)).

Definition setIsRecording (b : bool) : Handler :=
  upd (fun s => mkState (config s) (currentQuestion s) (questionIndex s)
        (answer s) b (isLoading s) (timeRemaining s) (sessionStarted s)
        (conversation s) (error s) (speechSupported s)).

Definition setIsLoading (b : bool) : Handler :=
  upd (fun s => mkState (config s) (currentQuestion s) (questionIndex s)
        (answer s) (isRecording s) b (timeRemaining s) (sessionStarted s)
        (conversation s) (error s) (speechSupported s)).

Definition setTimeRemaining (f : Z -> Z) : Handler :=
  upd (fun s => mkState (config s) (currentQuestion s) (questionIndex s)
        (answer s) (isRecording s) (isLoading s) (f (timeRemaining s))
        (sessionStarted s) (conversation s) (error s) (speechSupported s)).

Definition setSessionStarted (b : bool) : Handler :=
  upd (fun s => mkState (config s) (currentQuestion s) (questionIndex s)
        (answer s) (isRecording s) (isLoading s) (timeRemaining s) b
        (conversation s) (error s) (speechSupported s)).

Definition setConversation
  (f : list ConversationItem -> list ConversationItem) : Handler :=
  upd (fun s => mkState (config s) (currentQuestion s) (questionIndex s)
        (answer s) (isRecording s) (isLoading s) (timeRemaining s)
        (sessionStarted s) (f (conversation s)) (error s) (speechSupported s)).

Definition setError (e : jsstring) : Handler :=
  upd (fun s => mkState (config s) (currentQuestion s) (questionIndex s)
        (answer s) (isRecording s) (isLoading s) (timeRemaining s)
        (sessionStarted s) (conversation s) e (speechSupported s)).

Definition setSpeechSupported (b : bool) : Handler :=
  upd (fun s => mkState (config s) (currentQuestion s) (questionIndex s)
        (answer s) (isRecording s) (isLoading s) (timeRemaining s)
        (sessionStarted s) (conversation s) (error s) b).

(** *** Effects on the browser *)

Definition emit (e : Effect) : Handler := fun w =>
  mkWorld (st w) (mounted w) (timerArmed w)
          (ls_interviewConfig w) (ls_lastInterview w) (log w ++ [e]).

Definition storeLastInterview (d : InterviewData) : Handler := fun w =>
  mkWorld (st w) (mounted w) (timerArmed w)
          (ls_interviewConfig w) (Some d)
          (log w ++ [SetItem "lastInterview" (SData d)]).

Definition routerPush (path : string) : Handler := emit (Push path).

Definition setTimer (b : bool) : Handler := fun w =>
  mkWorld (st w) (mounted w) b
          (ls_interviewConfig w) (ls_lastInterview w) (log w).

Definition setMounted : Handler := fun w =>
  mkWorld (st w) true (timerArmed w)
          (ls_interviewConfig w) (ls_lastInterview w) (log w).

(** ** The handlers of [InterviewSessionPage] *)

Definition q1 : Question :=
  mkQuestion (js "1")
    (js "Tell me about yourself and your background in software engineering.")
    behavioral.
Definition q2 : Question :=
  mkQuestion (js "2")
    (js "How would you approach debugging a performance issue in a web application?")
    technical.
Definition q3 : Question :=
  mkQuestion (js "3")
    (js "Describe a challenging project you worked on and how you overcame obstacles.")
    behavioral.
Definition q4 : Question :=
  mkQuestion (js "4")
    (js "Explain the difference between SQL and NoSQL databases and when you would use each.")
    technical.
Definition q5 : Question :=
  mkQuestion (js "5")
    (js "How do you handle working with difficult team members?")
    behavioral.
Definition q6 : Question :=
  mkQuestion (js "6")
    (js "Design a system to handle 1 million concurrent users.")
    technical.
Definition q7 : Question :=
  mkQuestion (js "7") (js "What motivates you in your work?") behavioral.
Definition q8 : Question :=
  mkQuestion (js "8")
    (js "Do you have any questions for me about the role or company?")
    behavioral.

Definition mockQuestions : list Question := [q1; q2; q3; q4; q5; q6; q7; q8].

(** [mockQuestions[questionIndex] || mockQuestions[0]]: an object is truthy,
    a read past the end is [undefined], and [mockQuestions[0]] is [q1]. *)
Definition pickQuestion (i : nat) : Question :=
  match nth_error mockQuestions i with
  | Some q => q
  | None => q1
  end.

Definition questionItem (q : Question) (now : Z) : ConversationItem :=
  mkItem ty_question (q_text q) now.

Definition answerItem (a : jsstring) (now : Z) : ConversationItem :=
  mkItem ty_answer a now.

(** [generateNextQuestion]: the index it reads is the one of the render
    [r] whose closure it belongs to.  The body has no [await] and nothing
    in it throws, so it runs to its end at once. *)
Definition generateNextQuestion (r : State) (now : Z) : Handler :=
  setIsLoading true ;;
  setCurrentQuestion (Some (pickQuestion (questionIndex r))) ;;
  setConversation
    (fun prev => prev ++ [questionItem (pickQuestion (questionIndex r)) now]) ;;
  setIsLoading false.

Definition interviewData (r : State) (now : Z) : InterviewData :=
  mkData (config r) (conversation r) now (questionIndex r + 1) totalQuestions.

(** [endInterview]: builds the record from the values of render [r], writes
    it under [lastInterview] and navigates.  No state setter is called and
    nothing is tested first. *)
Definition endInterview (r : State) (now : Z) : Handler :=
  storeLastInterview (interviewData r now) ;;
  routerPush "/interview/feedback".

Definition submitAnswer (r : State) (now : Z) : Handler :=
  if negb (truthy (trim (answer r))) then
    setError (js "Please provide an answer before continuing.")
  else
    setIsLoading true ;;
    setConversation (fun prev => prev ++ [answerItem (answer r) now]) ;;
    setAnswer (fun _ => []) ;;
    (if questionIndex r + 1 <? totalQuestions then
       setQuestionIndex (fun prev => prev + 1) ;;
       generateNextQuestion r now
     else
       endInterview r now) ;;
    setIsLoading false.

(** [startInterview], cut at its [await]: the part that runs inside the
    mount effect, and the continuation that runs as a microtask. *)
Definition startInterview_sync (r : State) (now : Z) : Handler :=
  setIsLoading true ;;
  generateNextQuestion r now.

Definition startInterview_resume : Handler :=
  setSessionStarted true ;;
  setIsLoading false.

(** [startRecording]; [throws] says whether [speechRecognition.start()]
    raises. *)
Definition startRecording (r : State) (throws : bool) : Handler :=
  if negb (speechSupported r) then
    setError (js "Speech recognition not supported in your browser.")
  else
    setIsRecording true ;;
    setError [] ;;
    if throws then
      setError (js "Failed to start recording. Please check microphone permissions.") ;;
      setIsRecording false
    else emit RecognitionStart.

Definition stopRecording (r : State) : Handler :=
  (if speechSupported r && isRecording r then emit RecognitionStop else skip) ;;
  setIsRecording false.

(** The callbacks installed on the recognition object. *)
Definition onresult (transcript : jsstring) : Handler :=
  setAnswer (fun prev => prev ++ js " " ++ transcript).

Definition onerror : Handler :=
  setError (js "Speech recognition error. Please try typing your answer.") ;;
  setIsRecording false.

Definition onend : Handler := setIsRecording false.

(** The first effect (dependencies [[]]): it runs once, in the closure of
    the first render.  [speech] says whether the browser has a
    SpeechRecognition constructor.  Without a saved configuration it
    navigates to the setup page and returns before [startInterview]. *)
Definition mountEffect (r : State) (now : Z) (speech : bool) : Handler :=
  fun w =>
  match ls_interviewConfig w with
  | Some parsedConfig =>
      (setConfig (Some parsedConfig) ;;
       setTimeRemaining (fun _ => duration parsedConfig * 60)%Z ;;
       (if speech then setSpeechSupported true else skip) ;;
       startInterview_sync r now) w
  | None => routerPush "/interview/setup" w
  end.

(** The second effect (dependencies [[timeRemaining, sessionStarted]]). *)
Definition timerEffect (r : State) (now : Z) : Handler :=
  if sessionStarted r && (0 <? timeRemaining r)%Z then setTimer true
  else if (timeRemaining r =? 0)%Z && sessionStarted r then endInterview r now
  else skip.

(** The timeout callback. *)
Definition timeoutCallback : Handler :=
  setTimeRemaining (fun prev => prev - 1)%Z.

(** A render that follows the render [old]: when a dependency of the timer
    effect has changed, its cleanup clears the timeout and the effect runs
    again in the closure of the new render. *)
Definition depsChanged (old new : State) : bool :=
  negb ((timeRemaining old =? timeRemaining new)%Z
        && Bool.eqb (sessionStarted old) (sessionStarted new)).

Definition rerender (old : State) (now : Z) : Handler := fun w =>
  if depsChanged old (st w) then
    (setTimer false ;; timerEffect (st w) now) w
  else w.

(** ** The page as a transition system *)

Inductive Event :=
| Mount (speech : bool)
| Tick
| ChangeAnswer (text : jsstring)
| ClickClear
| ClickSubmit
| ClickEnd
| ClickStartRecording (throws : bool)
| ClickStopRecording
| SpeechResult (transcript : jsstring)
| SpeechError
| SpeechEnd.

(** Mounting: both effects run in the closure of the first render, the page
    renders again, the continuation of [startInterview] runs and the page
    renders once more. *)
Definition mount (now : Z) (speech : bool) : Handler := fun w =>
  let r0 := st w in
  let w1 := (setMounted ;; mountEffect r0 now speech ;; timerEffect r0 now) w in
  let w2 := rerender r0 now w1 in
  match ls_interviewConfig w with
  | Some _ => rerender (st w2) now (startInterview_resume w2)
  | None => w2
  end.

(** What the handler of an event does, before the next render. *)
Definition handle (now : Z) (e : Event) (r : State) : Handler :=
  match e with
  | Mount speech => skip
  | Tick => setTimer false ;; timeoutCallback
  | ChangeAnswer text => setAnswer (fun _ => text)
  | ClickClear => setAnswer (fun _ => [])
  | ClickSubmit => submitAnswer r now
  | ClickEnd => endInterview r now
  | ClickStartRecording throws => startRecording r throws
  | ClickStopRecording => stopRecording r
  | SpeechResult transcript => onresult transcript
  | SpeechError => onerror
  | SpeechEnd => onend
  end.

(** An event is possible when its source exists: the timeout when it is
    armed, the controls when the page shows them (it shows a placeholder
    while [config] is null), the recognition callbacks when there is a
    recognition object. *)
Definition enabled (e : Event) (w : World) : bool :=
  match e with
  | Mount _ => negb (mounted w)
  | Tick => mounted w && timerArmed w
  | SpeechResult _ | SpeechError | SpeechEnd =>
      mounted w && speechSupported (st w)
  | _ => mounted w && match config (st w) with Some _ => true | None => false end
  end.

Definition step (now : Z) (e : Event) (w : World) : option World :=
  if enabled e w then
    match e with
    | Mount speech => Some (mount now speech w)
    | _ => Some (rerender (st w) now (handle now e (st w) w))
    end
  else None.

(** The events the page receives, each with the time it occurs at.  The
    page handles an event whenever its source exists; it has no state that
    says the interview is over. *)
Fixpoint run (evs : list (Z * Event)) (w : World) : option World :=
  match evs with
  | [] => Some w
  | (now, e) :: evs' =>
      match step now e w with
      | Some w' => run evs' w'
      | None => None
      end
  end.

(** Navigation replaces the page: a session lives as long as the router has
    not been asked to go elsewhere. *)
Definition isPush (e : Effect) : bool :=
  match e with Push _ => true | _ => false end.

Definition navigated (w : World) : bool := existsb isPush (log w).

Definition live (w : World) : bool := negb (navigated w).

(** The states of a session for the saved configuration [saved]: the
    events are those the page receives while the session is live, and the
    state left by the event that ends it closes the run.  The restriction
    to a live page belongs to the session, not to the page, which handles
    the events of [run] after it has asked to navigate as before. *)
Inductive reachable (saved : option InterviewConfig) : World -> Prop :=
| reach_init : reachable saved (initialWorld saved)
| reach_step : forall w now e w',
    reachable saved w -> live w = true -> step now e w = Some w' ->
    reachable saved w'.

(** ** The setup page (src/app/(interview)/setup/page.tsx) *)

Module Setup.

(** The [useState] cells of [InterviewSetupPage].  The two sliders hold a
    one-element array that is read at index 0; the cell is kept as that
    element. *)
Record State := mkState {
  selectedRole : jsstring;
  customJobDescription : jsstring;
  interviewType : jsstring;
  difficulty : Z;
  duration : Z;
  inputMethod : jsstring
}.

Definition initialState : State :=
  mkState [] [] (js "technical") 2 20 (js "both").

(** The [id]s of the [roles] table.  [selectedRole] starts empty and its
    only writer is [setSelectedRole(role.id)] on a card of that table. *)
Definition roleIds : list jsstring :=
  [js "software-engineer"; js "data-analyst"; js "product-manager";
   js "marketing-manager"; js "sales-rep"; js "business-analyst";
   js "ux-designer"; js "project-manager"].

Definition choosable (s : State) : Prop :=
  selectedRole s = [] \/ In (selectedRole s) roleIds.

Definition configOf (s : State) : InterviewConfig :=
  mkConfig (selectedRole s) (customJobDescription s) (interviewType s)
           (difficulty s) (duration s) (inputMethod s).

(** [handleStartInterview] calls no state setter: what it does is the
    list of its effects, in order. *)
Definition handleStartInterview (s : State) : list Effect :=
  if negb (truthy (selectedRole s))
     && negb (truthy (trim (customJobDescription s))) then
    [Alert "Please select a role or provide a job description"]
  else
    [SetItem "interviewConfig" (SConfig (configOf s));
     Push "/interview/session"].

(** The configuration the session page finds after these effects. *)
Fixpoint savedConfig (l : list Effect) : option InterviewConfig :=
  match l with
  | [] => None
  | SetItem "interviewConfig" (SConfig c) :: l' =>
      match savedConfig l' with
      | Some c' => Some c'
      | None => Some c
      end
  | _ :: l' => savedConfig l'
  end.

Definition started (l : list Effect) : bool :=
  existsb (fun e => match e with
                    | Push "/interview/session" => true
                    | _ => false
                    end) l.

End Setup.

(** ** The API client (lib/api) *)

Module Api.

Section Client.

(** JSON numbers are doubles; all the client needs of one is whether it
    is zero (its truthiness). *)
Variable number : Type.
Variable isZero : number -> bool.

Inductive Json :=
| JNull
| JBool (b : bool)
| JNum (n : number)
| JStr (s : jsstring)
| JArr (l : list Json)
| JObj (fields : list (jsstring * Json)).

(** A thrown value: an [Error] with its message, or anything else. *)
Inductive Thrown :=
| ThrowError (message : jsstring)
| ThrowOther.

Inductive Result (A : Type) :=
| Resolved (a : A)
| Rejected (t : Thrown).
Arguments Resolved {A} a.
Arguments Rejected {A} t.

Record Response := mkResponse {
  ok : bool;
  status : N;
  json : Result Json
}.

Record RequestInit := mkInit {
  method : option jsstring;
  body : option jsstring;
  headers : list (string * jsstring)
}.

Record ApiClient := mkClient {
  baseUrl : jsstring;
  token : option jsstring
}.

(** [ApiResponse<T>]: an absent key is [None]. *)
Record ApiResponse := mkApiResponse {
  data : option Json;
  error : option Json
}.

Variable fetch : jsstring -> RequestInit -> Result Response.

Definition jsTruthy (v : Json) : bool :=
  match v with
  | JNull => false
  | JBool b => b
  | JNum n => negb (isZero n)
  | JStr s => truthy s
  | JArr _ | JObj _ => true
  end.

Definition code_eqb (a b : jsstring) : bool :=
  if list_eq_dec N.eq_dec a b then true else false.

(** Reading a key of a parsed object: the last occurrence wins. *)
Fixpoint getField (k : jsstring) (fields : list (jsstring * Json))
  : option Json :=
  match fields with
  | [] => None
  | (k', v) :: rest =>
      match getField k rest with
      | Some v' => Some v'
      | None => if code_eqb k k' then Some v else None
      end
  end.

(** [data.message]: a TypeError on [null], the field on an object,
    [undefined] (here [None]) on every other value. *)
Definition readMessage (d : Json) : Result (option Json) :=
  match d with
  | JNull =>
      Rejected (ThrowError
        (js "Cannot read properties of null (reading 'message')"))
  | JObj fields => Resolved (getField (js "message") fields)
  | _ => Resolved None
  end.

Definition showStatus (n : N) : jsstring :=
  js (DecimalString.NilEmpty.string_of_uint (N.to_uint n)).

(** The [catch] clause. *)
Definition caught (t : Thrown) : ApiResponse :=
  mkApiResponse None
    (Some (JStr match t with
                | ThrowError message => message
                | ThrowOther => js "Network error occurred"
                end)).

Definition withAuth (c : ApiClient) (h : list (string * jsstring))
  : list (string * jsstring) :=
  match token c with
  | Some t =>
      match t with
      | [] => h
      | _ => h ++ [("Authorization", js "Bearer " ++ t)]
      end
  | None => h
  end.

Definition request (c : ApiClient) (endpoint : jsstring)
           (options : RequestInit) : ApiResponse :=
  let url := baseUrl c ++ endpoint in
  let hs :=
    withAuth c (("Content-Type", js "application/json") :: headers options) in
  match fetch url (mkInit (method options) (body options) hs) with
  | Rejected t => caught t
  | Resolved response =>
      match json response with
      | Rejected t => caught t
      | Resolved d =>
          if negb (ok response) then
            match readMessage d with
            | Rejected t => caught t
            | Resolved m =>
                mkApiResponse None
                  (Some match m with
                        | Some v =>
                            if jsTruthy v then v
                            else JStr (js "HTTP error! status: "
                                       ++ showStatus (status response))
                        | None =>
                            JStr (js "HTTP error! status: "
                                  ++ showStatus (status response))
                        end)
            end
          else mkApiResponse (Some d) None
      end
  end.

End Client.

End Api.

(** ** Vocabulary of the properties *)

Definition countType (t : ItemType) (l : list ConversationItem) : nat :=
  List.length (filter (fun i => ItemType_eqb (type i) t) l).

Definition questionCount := countType ty_question.
Definition answerCount := countType ty_answer.

(** No two neighbours of the same type. *)
Fixpoint alternating (l : list ConversationItem) : bool :=
  match l with
  | i :: ((j :: _) as l') => negb (ItemType_eqb (type i) (type j)) && alternating l'
  | _ => true
  end.

Definition startsWithQuestion (l : list ConversationItem) : bool :=
  match l with
  | i :: _ => ItemType_eqb (type i) ty_question
  | [] => true
  end.

(** A log with [n] answered questions and one open question. *)
Inductive openLog : nat -> list ConversationItem -> Prop :=
| open_first : forall q t, openLog 0 [questionItem q t]
| open_next : forall n l a t q t',
    openLog n l ->
    openLog (S n) (l ++ [answerItem a t; questionItem q t']).



(** The ranges the setup page enforces (the sliders' [min] and [max], the
    guard of [handleStartInterview]). *)
Definition valid_config (c : InterviewConfig) : Prop :=
  (10 <= duration c <= 60)%Z /\ (1 <= difficulty c <= 4)%Z /\
  (truthy (role c) || truthy (trim (customJobDescription c))) = true.

(** The events of a session, run while it is live. *)
Fixpoint sessionRun (evs : list (Z * Event)) (w : World) : option World :=
  match evs with
  | [] => Some w
  | (now, e) :: evs' =>
      if live w then
        match step now e w with
        | Some w' => sessionRun evs' w'
        | None => None
        end
      else None
  end.

(** A handler that leaves what the browser has recorded in place and only
    adds to it. *)
Definition logGrows (f : Handler) : Prop :=
  forall w, exists l, log (f w) = log w ++ l.

(** The record of an ended session: the index it was built from is the
    current one, its log is the log with the last question open, and the
    page's log is that log, or that log followed by the answer to the last
    of the [totalQuestions] questions. *)
Definition recordOf (c : InterviewConfig) (w : World) (d : InterviewData)
  : Prop :=
  d_config d = Some c /\ d_totalQuestions d = totalQuestions /\
  questionsAnswered d = questionIndex (st w) + 1 /\
  openLog (questionIndex (st w)) (d_conversation d) /\
  (conversation (st w) = d_conversation d \/
   questionIndex (st w) + 1 = totalQuestions /\
   exists a t, conversation (st w) = d_conversation d ++ [answerItem a t]).

(** What holds of every state of a session. *)
Definition Inv (saved : option InterviewConfig) (w : World) : Prop :=
  ls_interviewConfig w = saved /\
  (mounted w = false ->
     st w = initialState /\ log w = [] /\ timerArmed w = false) /\
  (mounted w = true ->
     match saved with
     | None =>
         st w = initialState /\ timerArmed w = false /\ live w = false
     | Some c =>
         config (st w) = Some c /\ sessionStarted (st w) = true /\
         questionIndex (st w) < totalQuestions /\
         (timerArmed w = true -> 0 < timeRemaining (st w))%Z /\
         (live w = true -> 0 < timeRemaining (st w) -> timerArmed w = true)%Z /\
         (0 <= duration c -> 0 <= timeRemaining (st w))%Z /\
         ((live w = true /\
           openLog (questionIndex (st w)) (conversation (st w))) \/
          (live w = false /\
           exists d, ls_lastInterview w = Some d /\ recordOf c w d))
     end).

(** *** Sample sessions *)

(** The configuration of the setup page's defaults with a role chosen:
    a technical interview of 20 minutes, typed answers. *)
Definition sampleConfig : InterviewConfig :=
  mkConfig (js "software-engineer") [] (js "technical") 2 20 (js "text").

Definition typeAndSubmit (now : Z) (text : jsstring) : list (Z * Event) :=
  [(now, ChangeAnswer text); (now, ClickSubmit)].

(** Mounting at time 0, then eight typed answers, one every minute. *)
Definition eightAnswers : list (Z * Event) :=
  (0, Mount false)%Z ::
  flat_map (fun k => typeAndSubmit (Z.of_nat k * 60000) (js "ok"))
           [1; 2; 3; 4; 5; 6; 7; 8].

(** Mounting at time 0, then [n] seconds of the countdown. *)
Definition countdown (n : nat) : list (Z * Event) :=
  (0, Mount false)%Z :: map (fun k => (Z.of_nat k * 1000, Tick)%Z) (List.seq 1 n).

(** The sample session one second before its time is up, and with the
    second question open and an answer typed. *)
Definition lastSecond : World :=
  mkWorld (mkState (Some sampleConfig) (Some q1) 0 [] false false 1 true
             [questionItem q1 0] [] false)
          true true (Some sampleConfig) None [].

Definition answering : World :=
  mkWorld (mkState (Some sampleConfig) (Some q1) 1 (js "ok") false false 1200
             true
             [questionItem q1 0; answerItem (js "ok") 60000;
              questionItem q1 60000] [] false)
          true true (Some sampleConfig) None [].

(** The events that lead to [answering]. *)
Definition answeringEvents : list (Z * Event) :=
  (0, Mount false)%Z :: typeAndSubmit 60000 (js "ok")
    ++ [(61000, ChangeAnswer (js "ok"))%Z].

(** Two fillings of the setup form: a role chosen and a job description
    pasted as well, and a role alone. *)
Definition roleAndDescription : Setup.State :=
  Setup.mkState (js "software-engineer") (js "Platform engineer, Kubernetes")
                (js "technical") 2 20 (js "both").

Definition roleOnly : Setup.State :=
  Setup.mkState (js "software-engineer") [] (js "technical") 2 20 (js "text").

Fixpoint lastType (l : list ConversationItem) : option ItemType :=
  match l with
  | [] => None
  | i :: l' => match l' with [] => Some (type i) | _ :: _ => lastType l' end
  end.

(** ** Further functions of the session page *)





(** ** What the API client sends *)

Module ApiCalls.

(** The value of a header in a headers object built by spreading and
    assigning: the last write of a key is the one that stays. *)
Fixpoint headerOf (k : string) (hs : list (string * jsstring))
  : option jsstring :=
  match hs with
  | [] => None
  | (k', v) :: rest =>
      match headerOf k rest with
      | Some v' => Some v'
      | None => if String.eqb k k' then Some v else None
      end
  end.

(** The two arguments [request] calls [fetch] with. *)
Definition fetchUrl (c : Api.ApiClient) (endpoint : jsstring) : jsstring :=
  Api.baseUrl c ++ endpoint.

Definition fetchInit (c : Api.ApiClient) (options : Api.RequestInit)
  : Api.RequestInit :=
  Api.mkInit (Api.method options) (Api.body options)
    (Api.withAuth c
       (("Content-Type", js "application/json") :: Api.headers options)).

End ApiCalls.

(** ** The [useInterview] hook (part_004) *)

Module Hook.

Record State := mkState {
  interviewId : option jsstring;
  currentQuestion : option Question;
  questionIndex : nat;
  conversation : list ConversationItem;
  isLoading : bool;
  error : option jsstring;
  sessionActive : bool
}.

Definition initialState : State := mkState None None 0 [] false None false.

(** [ApiResponse<T>] as the client's methods declare it: [data] of the
    method's type, [error] a string; an absent key is [None]. *)
Record Response (T : Type) := mkResponse {
  data : option T;
  error_ : option jsstring
}.
Arguments mkResponse {T} data error_.
Arguments data {T} r.
Arguments error_ {T} r.

Record Created := mkCreated { c_id : jsstring; c_sessionId : jsstring }.

(** The calls made on the API client, in order. *)
Inductive Call :=
| CreateInterview (config : InterviewConfig)
| GetQuestion (interviewId : jsstring) (context : jsstring)
| SubmitAnswer (interviewId : jsstring) (questionId : jsstring)
               (answer : jsstring)
| EndInterview (interviewId : jsstring).

Record World := mkWorld {
  hs : State;
  calls : list Call
}.

Definition call (c : Call) (w : World) : World :=
  mkWorld (hs w) (calls w ++ [c]).

Definition upd (f : State -> State) (w : World) : World :=
  mkWorld (f (hs w)) (calls w).

Definition setInterviewId (v : option jsstring) : World -> World :=
  upd (fun s => mkState v (currentQuestion s) (questionIndex s)
                  (conversation s) (isLoading s) (error s) (sessionActive s)).
Definition setCurrentQuestion (v : option Question) : World -> World :=
  upd (fun s => mkState (interviewId s) v (questionIndex s)
                  (conversation s) (isLoading s) (error s) (sessionActive s)).
Definition setQuestionIndex (f : nat -> nat) : World -> World :=
  upd (fun s => mkState (interviewId s) (currentQuestion s)
                  (f (questionIndex s)) (conversation s) (isLoading s)
                  (error s) (sessionActive s)).
Definition setConversation
  (f : list ConversationItem -> list ConversationItem) : World -> World :=
  upd (fun s => mkState (interviewId s) (currentQuestion s) (questionIndex s)
                  (f (conversation s)) (isLoading s) (error s)
                  (sessionActive s)).
Definition setIsLoading (b : bool) : World -> World :=
  upd (fun s => mkState (interviewId s) (currentQuestion s) (questionIndex s)
                  (conversation s) b (error s) (sessionActive s)).
Definition setError (e : option jsstring) : World -> World :=
  upd (fun s => mkState (interviewId s) (currentQuestion s) (questionIndex s)
                  (conversation s) (isLoading s) e (sessionActive s)).
Definition setSessionActive (b : bool) : World -> World :=
  upd (fun s => mkState (interviewId s) (currentQuestion s) (questionIndex s)
                  (conversation s) (isLoading s) (error s) b).

(** A string or [null] that passes an [if]: a non-empty string. *)
Definition present (v : option jsstring) : option jsstring :=
  match v with
  | Some s => if truthy s then Some s else None
  | None => None
  end.

Definition typeName (t : ItemType) : jsstring :=
  match t with ty_question => js "question" | ty_answer => js "answer" end.

(** [lines.join('\n')]. *)
Fixpoint joinLines (lines : list jsstring) : jsstring :=
  match lines with
  | [] => []
  | [l] => l
  | l :: rest => l ++ 10%N :: joinLines rest
  end.

Definition contextOf (conv : list ConversationItem) : jsstring :=
  joinLines (map (fun item => typeName (type item) ++ js ": " ++ content item)
                 conv).

(** What follows an awaited response in every callback: a truthy [error]
    is thrown and caught, which sets [error]; otherwise [onData] runs. *)
Definition settle {T : Type} (resp : Response T) (onData : World -> World)
  (w : World) : bool * World :=
  match present (error_ resp) with
  | Some e => (false, setIsLoading false (setError (Some e) w))
  | None => (true, setIsLoading false (onData w))
  end.

(** [getNextQuestion(id)], in the closure of render [r]; [resp] is what
    [apiClient.getQuestion] resolves to. *)
Definition getNextQuestion (r : State) (id : option jsstring)
  (resp : Response Question) (now : Z) (w : World) : World :=
  match present (match present id with
                 | Some i => Some i
                 | None => interviewId r
                 end) with
  | None => w
  | Some currentId =>
      snd (settle resp
             (fun w' =>
                match data resp with
                | Some q =>
                    setConversation (fun prev => prev ++ [questionItem q now])
                      (setCurrentQuestion (Some q) w')
                | None => w'
                end)
             (call (GetQuestion currentId (contextOf (conversation r)))
                (setError None (setIsLoading true w))))
  end.

(** [startInterview(config)].  Its dependency list is empty: the
    [getNextQuestion] it calls is the one of the first render, whose
    closure holds the initial state. *)
Definition startInterview (config : InterviewConfig)
  (created : Response Created) (first : Response Question) (now : Z)
  (w : World) : World :=
  snd (settle created
         (fun w' =>
            match data created with
            | Some d =>
                getNextQuestion initialState (Some (c_id d)) first now
                  (setSessionActive true (setInterviewId (Some (c_id d)) w'))
            | None => w'
            end)
         (call (CreateInterview config)
            (setError None (setIsLoading true w)))).

(** [submitAnswer(answer)]; the result is what the promise resolves to,
    [None] for [undefined]. *)
Definition submitAnswer (r : State) (answer : jsstring)
  (resp : Response bool) (now : Z) (w : World) : option bool * World :=
  match present (interviewId r), currentQuestion r with
  | Some id, Some q =>
      let (ok, w') :=
        settle resp
          (fun w' =>
             setQuestionIndex (fun prev => prev + 1)
               (setConversation (fun prev => prev ++ [answerItem answer now])
                  w'))
          (call (SubmitAnswer id (q_id q) answer)
             (setError None (setIsLoading true w))) in
      (Some ok, w')
  | _, _ => (None, w)
  end.

Definition endInterview (r : State) (resp : Response bool) (w : World)
  : option bool * World :=
  match present (interviewId r) with
  | Some id =>
      let (ok, w') :=
        settle resp (setSessionActive false)
          (call (EndInterview id) (setError None (setIsLoading true w))) in
      (Some ok, w')
  | None => (None, w)
  end.

Definition resetInterview (w : World) : World :=
  setSessionActive false
    (setError None
       (setConversation (fun _ => [])
          (setQuestionIndex (fun _ => 0)
             (setCurrentQuestion None (setInterviewId None w))))).

End Hook.

(** ** The [useSpeechRecognition] hook (src/hooks/useSpeechRecognition.ts) *)

Module Speech.

Section Recognition.

(** A JavaScript number is only stored here (the confidence of a result). *)
Variable number : Type.
Variable zero : number.

Record State := mkState {
  isListening : bool;
  transcript : jsstring;
  interimTranscript : jsstring;
  error : option jsstring;
  isSupported : bool;
  confidence : number
}.

Definition initialState : State := mkState false [] [] None false zero.

Inductive Effect := RecognitionStart | RecognitionStop.

(** The hook with its two refs.  [recognition] says that
    [recognitionRef.current] holds an object.  A pending timeout is kept
    with its id and with the [isListening] of the closure its callback
    will run [stopListening] in; [timeoutRef] holds an id. *)
Record World := mkWorld {
  ss : State;
  recognition : bool;
  timeoutRef : option nat;
  pending : list (nat * bool);
  nextId : nat;
  effects : list Effect
}.

Definition initialWorld : World := mkWorld initialState false None [] 1 [].

Definition upd (f : State -> State) (w : World) : World :=
  mkWorld (f (ss w)) (recognition w) (timeoutRef w) (pending w) (nextId w)
          (effects w).

Definition setIsListening (b : bool) : World -> World :=
  upd (fun s => mkState b (transcript s) (interimTranscript s) (error s)
                  (isSupported s) (confidence s)).
Definition setTranscript (f : jsstring -> jsstring) : World -> World :=
  upd (fun s => mkState (isListening s) (f (transcript s))
                  (interimTranscript s) (error s) (isSupported s)
                  (confidence s)).
Definition setInterimTranscript (v : jsstring) : World -> World :=
  upd (fun s => mkState (isListening s) (transcript s) v (error s)
                  (isSupported s) (confidence s)).
Definition setError (e : option jsstring) : World -> World :=
  upd (fun s => mkState (isListening s) (transcript s) (interimTranscript s)
                  e (isSupported s) (confidence s)).
Definition setIsSupported (b : bool) : World -> World :=
  upd (fun s => mkState (isListening s) (transcript s) (interimTranscript s)
                  (error s) b (confidence s)).
Definition setConfidence (c : number) : World -> World :=
  upd (fun s => mkState (isListening s) (transcript s) (interimTranscript s)
                  (error s) (isSupported s) c).

Definition emit (e : Effect) (w : World) : World :=
  mkWorld (ss w) (recognition w) (timeoutRef w) (pending w) (nextId w)
          (effects w ++ [e]).

(** [timeoutRef.current = setTimeout(() => stopListening(), 30000)]. *)
Definition armTimeout (closureListening : bool) (w : World) : World :=
  mkWorld (ss w) (recognition w) (Some (nextId w))
          (pending w ++ [(nextId w, closureListening)]) (S (nextId w))
          (effects w).

(** [clearTimeout(timeoutRef.current); timeoutRef.current = null]. *)
Definition clearTimeoutRef (w : World) : World :=
  match timeoutRef w with
  | Some id =>
      mkWorld (ss w) (recognition w) None
              (filter (fun p => negb (fst p =? id)) (pending w)) (nextId w)
              (effects w)
  | None => w
  end.

(** The first effect. *)
Definition mountEffect (supported : bool) (w : World) : World :=
  if supported then
    mkWorld (ss (setIsSupported true w)) true (timeoutRef w) (pending w)
            (nextId w) (effects w)
  else
    setError (Some (js "Speech recognition is not supported in this browser"))
      (setIsSupported false w).

Definition known (code : string) : option string :=
  match code with
  | "no-speech" => Some "No speech detected. Please try again."
  | "audio-capture" =>
      Some "Microphone not accessible. Please check permissions."
  | "not-allowed" =>
      Some "Microphone permission denied. Please allow microphone access."
  | "network" => Some "Network error occurred. Please check your connection."
  | "aborted" => Some "Speech recognition was aborted."
  | "language-not-supported" => Some "Language not supported."
  | "service-not-allowed" => Some "Speech recognition service not allowed."
  | _ => None
  end%string.

Definition getErrorMessage (code : string) : jsstring :=
  match known code with
  | Some m => js m
  | None => js "Speech recognition error: " ++ js code
  end.

(** [stopListening], in a closure whose [isListening] is [listening]. *)
Definition stopListening (listening : bool) (w : World) : World :=
  clearTimeoutRef
    (if recognition w && listening then emit RecognitionStop w else w).

(** [startListening], in the closure of render [r]; [throws] says whether
    [recognition.start()] raises.  The callback of the timeout it arms
    calls the [stopListening] of the same render. *)
Definition startListening (r : State) (throws : bool) (w : World) : World :=
  if negb (isSupported r) || negb (recognition w) then
    setError (Some (js "Speech recognition not available")) w
  else if isListening r then w
  else
    let w1 := setInterimTranscript [] (setTranscript (fun _ => [])
                                         (setError None w)) in
    if throws then
      setError (Some (js "Failed to start speech recognition")) w1
    else armTimeout (isListening r) (emit RecognitionStart w1).

Definition resetTranscript (w : World) : World :=
  setConfidence zero (setInterimTranscript [] (setTranscript (fun _ => []) w)).

(** One result of the event: its first alternative when it has one. *)
Record Alternative := mkAlternative {
  a_transcript : jsstring;
  a_confidence : number
}.

Record Result := mkResult {
  first : option Alternative;
  isFinal : bool
}.

(** The body of the [for] loop of [onresult], on the two local variables
    and the queued updates. *)
Definition loopBody (acc : jsstring * jsstring * World) (result : Result)
  : jsstring * jsstring * World :=
  let '(finalTranscript, interim, w) := acc in
  match first result with
  | Some a =>
      if isFinal result
      then (a_transcript a, interim, setConfidence (a_confidence a) w)
      else (finalTranscript, a_transcript a, w)
  | None => acc
  end.

(** [recognition.onresult]: the loop runs from the last result down to
    the first. *)
Definition onresult (results : list Result) (w : World) : World :=
  let '(finalTranscript, interim, w1) :=
    fold_left loopBody (rev results) ([], [], w) in
  if truthy finalTranscript then
    setInterimTranscript []
      (setTranscript (fun prev => prev ++ finalTranscript ++ js " ") w1)
  else setInterimTranscript interim w1.

Definition onstart (w : World) : World := setError None (setIsListening true w).

Definition onerror (code : string) (w : World) : World :=
  setIsListening false (setError (Some (getErrorMessage code)) w).

Definition onend (w : World) : World :=
  setInterimTranscript [] (setIsListening false w).

Inductive Event :=
| CallStart (throws : bool)
| CallStop
| CallReset
| OnStart
| OnResult (results : list Result)
| OnError (code : string)
| OnEnd
| Timeout (id : nat).

(** The closure a pending timeout runs in. *)
Fixpoint closureOf (id : nat) (l : list (nat * bool)) : option bool :=
  match l with
  | [] => None
  | (i, b) :: rest => if i =? id then Some b else closureOf id rest
  end.

Definition fire (id : nat) (b : bool) (w : World) : World :=
  stopListening b
    (mkWorld (ss w) (recognition w) (timeoutRef w)
             (filter (fun p => negb (fst p =? id)) (pending w)) (nextId w)
             (effects w)).

(** The callbacks returned by the hook are those of the current render;
    the recognition's callbacks need the recognition object. *)
Definition step (e : Event) (w : World) : option World :=
  match e with
  | CallStart throws => Some (startListening (ss w) throws w)
  | CallStop => Some (stopListening (isListening (ss w)) w)
  | CallReset => Some (resetTranscript w)
  | OnStart => if recognition w then Some (onstart w) else None
  | OnResult results => if recognition w then Some (onresult results w) else None
  | OnError code => if recognition w then Some (onerror code w) else None
  | OnEnd => if recognition w then Some (onend w) else None
  | Timeout id =>
      match closureOf id (pending w) with
      | Some b => Some (fire id b w)
      | None => None
      end
  end.

(** The states of the hook in a browser that has ([supported]) or has not
    a SpeechRecognition constructor: the first effect runs once, then the
    events come in any order. *)
Inductive reachable (supported : bool) : World -> Prop :=
| reach_mount : reachable supported (mountEffect supported initialWorld)
| reach_step : forall w e w',
    reachable supported w -> step e w = Some w' -> reachable supported w'.

(** The first result, from index 0 up, that satisfies [p] and has an
    alternative. *)
Definition firstWith (p : Result -> bool) (results : list Result)
  : option Alternative :=
  match find (fun r => p r && match first r with Some _ => true | None => false end)
             results with
  | Some r => first r
  | None => None
  end.

Definition textOf (a : option Alternative) : jsstring :=
  match a with
  | Some x => a_transcript x
  | None => []
  end.

Definition withConfidenceOf (a : option Alternative) (w : World) : World :=
  match a with
  | Some x => setConfidence (a_confidence x) w
  | None => w
  end.

End Recognition.

End Speech.

(** ** The feedback page (part_002): the analysis of the stored record *)

Module Feedback.

Record QuestionAnalysis := mkAnalysis {
  qa_question : jsstring;
  qa_answer : jsstring;
  qa_score : Z;
  qa_feedback : jsstring
}.

(** The items of an array with their indices, from index [k] on. *)
Fixpoint indexedFrom (k : nat) (l : list ConversationItem)
  : list (nat * ConversationItem) :=
  match l with
  | [] => []
  | x :: l' => (k, x) :: indexedFrom (S k) l'
  end.

Definition isType (t : ItemType) (i : ConversationItem) : bool :=
  ItemType_eqb (type i) t.

(** The callback of [filter]: a question that is not the last item. *)
Definition keptQuestion (conv : list ConversationItem)
  (p : nat * ConversationItem) : bool :=
  isType ty_question (snd p) && (fst p <? List.length conv - 1).

(** [conversation.findIndex((item, i) => i > k && item.type === 'answer')]
    followed by the read at that index; [None] is the [-1] of
    [findIndex].  [k] is [conversation.indexOf(question)]: the record comes
    out of [JSON.parse], every item is an object of its own, so the index
    found is the one [filter] met the question at. *)
Definition answerAfter (conv : list ConversationItem) (k : nat)
  : option ConversationItem :=
  match find (fun p => (k <? fst p) && isType ty_answer (snd p))
             (indexedFrom 0 conv) with
  | Some p => Some (snd p)
  | None => None
  end.

(** [answer?.content || 'No answer provided']. *)
Definition answerText (a : option ConversationItem) : jsstring :=
  match a with
  | Some i => if truthy (content i) then content i
              else js "No answer provided"
  | None => js "No answer provided"
  end.

(** The rows the analysis gives for a log of answered questions followed
    by an open one. *)
Fixpoint answeredPairs (l : list ConversationItem)
  : list (jsstring * jsstring) :=
  match l with
  | q :: a :: rest =>
      (content q, answerText (Some a)) :: answeredPairs rest
  | _ => []
  end.

Section Analysis.

(** The two [Math.random()] draws of the [n]-th entry, as the score and
    the sentence they select. *)
Variable drawn : nat -> Z * jsstring.

Fixpoint mapi (n : nat) (l : list (nat * ConversationItem))
  (conv : list ConversationItem) : list QuestionAnalysis :=
  match l with
  | [] => []
  | p :: l' =>
      mkAnalysis (content (snd p)) (answerText (answerAfter conv (fst p)))
                 (fst (drawn n)) (snd (drawn n))
      :: mapi (S n) l' conv
  end.

Definition questionAnalysis (conv : list ConversationItem)
  : list QuestionAnalysis :=
  mapi 0 (filter (keptQuestion conv) (indexedFrom 0 conv)) conv.

End Analysis.

End Feedback.

(** ** Further vocabulary *)

(** The texts of the questions of a log, in order. *)
Definition questionContents (l : list ConversationItem) : list jsstring :=
  map content (filter (fun i => ItemType_eqb (type i) ty_question) l).

Definition answerContents (l : list ConversationItem) : list jsstring :=
  map content (filter (fun i => ItemType_eqb (type i) ty_answer) l).

(** The items a run of typed answers adds to the log when the index is [k]
    at its start: each answer, followed by the next question while one is
    left. *)
Fixpoint transcript (k : nat) (tas : list (Z * jsstring))
  : list ConversationItem :=
  match tas with
  | [] => []
  | (t, a) :: rest =>
      answerItem a t ::
      (if k + 1 <? totalQuestions
       then questionItem (pickQuestion k) t :: transcript (k + 1) rest
       else [])
  end.

Definition typedAnswers (tas : list (Z * jsstring)) : list (Z * Event) :=
  flat_map (fun ta => typeAndSubmit (fst ta) (snd ta)) tas.

Definition ticks (times : list Z) : list (Z * Event) :=
  map (fun t => (t, Tick)) times.

(** ** Properties *)

(** *** Strings *)

Lemma trimStart_nil_iff (s : jsstring) :
  trimStart s = [] <-> forallb isWhiteSpace s = true.
Proof.
  induction s as [|c s IH]; simpl.
  - tauto.
  - destruct (isWhiteSpace c); simpl.
    + exact IH.
    + split; discriminate.
Qed.

Lemma trim_nil_iff (s : jsstring) :
  trim s = [] <-> forallb isWhiteSpace s = true.
Proof.
  rewrite <- trimStart_nil_iff. unfold trim, trimEnd. split.
  - intro H. apply (f_equal (@rev N)) in H. rewrite rev_involutive in H.
    simpl in H. apply trimStart_nil_iff in H.
    rewrite forallb_forall in H.
    destruct (trimStart s) as [|c s'] eqn:E; [reflexivity|].
    assert (Hc : isWhiteSpace c = true).
    { apply H. rewrite <- In_rev. now left. }
    clear H. exfalso. revert c s' E Hc.
    induction s as [|d s IH]; simpl; intros c s' E Hc; [discriminate|].
    destruct (isWhiteSpace d) eqn:Ed.
    + eapply IH; eauto.
    + inversion E; subst. congruence.
  - intro H. rewrite H. reflexivity.
Qed.

Lemma truthy_trim_false (s : jsstring) :
  truthy (trim s) = false <-> forallb isWhiteSpace s = true.
Proof.
  rewrite <- trim_nil_iff. destruct (trim s); simpl; split;
    congruence.
Qed.

(** *** Logs *)

Lemma countType_app (t : ItemType) (l l' : list ConversationItem) :
  countType t (l ++ l') = countType t l + countType t l'.
Proof.
  unfold countType. rewrite filter_app, length_app. reflexivity.
Qed.

Lemma alternating_snoc (l : list ConversationItem) (x : ConversationItem) :
  alternating (l ++ [x]) =
  alternating l &&
  match lastType l with
  | Some t => negb (ItemType_eqb t (type x))
  | None => true
  end.
Proof.
  induction l as [|i l IH]; [reflexivity|].
  destruct l as [|j l].
  - simpl. now rewrite andb_true_r.
  - change (alternating ((i :: j :: l) ++ [x]))
      with (negb (ItemType_eqb (type i) (type j)) && alternating ((j :: l) ++ [x])).
    rewrite IH.
    change (alternating (i :: j :: l))
      with (negb (ItemType_eqb (type i) (type j)) && alternating (j :: l)).
    change (lastType (i :: j :: l)) with (lastType (j :: l)).
    now rewrite andb_assoc.
Qed.

Lemma lastType_snoc (l : list ConversationItem) (x : ConversationItem) :
  lastType (l ++ [x]) = Some (type x).
Proof.
  induction l as [|i l IH]; [reflexivity|].
  simpl. destruct (l ++ [x]) eqn:E.
  - destruct l; discriminate.
  - exact IH.
Qed.

Lemma startsWithQuestion_app (l l' : list ConversationItem) :
  l <> [] -> startsWithQuestion (l ++ l') = startsWithQuestion l.
Proof. destruct l; simpl; congruence. Qed.

Lemma openLog_nonempty n l : openLog n l -> l <> [].
Proof.
  destruct 1; [discriminate|]. destruct l; discriminate.
Qed.

Lemma openLog_facts n l :
  openLog n l ->
  questionCount l = n + 1 /\ answerCount l = n /\
  alternating l = true /\ lastType l = Some ty_question /\
  startsWithQuestion l = true.
Proof.
  unfold questionCount, answerCount.
  induction 1 as [q t|n l a t q t' H (Hq & Ha & Halt & Hlast & Hhd)].
  - repeat split; reflexivity.
  - change (l ++ [answerItem a t; questionItem q t'])
      with (l ++ [answerItem a t] ++ [questionItem q t']).
    rewrite app_assoc.
    rewrite !countType_app, !alternating_snoc, !lastType_snoc, Hq, Ha, Halt, Hlast.
    rewrite <- app_assoc, startsWithQuestion_app by (eapply openLog_nonempty; eauto).
    repeat split; try reflexivity; try assumption;
      unfold countType; simpl; lia.
Qed.

(** A log closed by the answer to its last question. *)
Lemma closedLog_facts n l a t :
  openLog n l ->
  questionCount (l ++ [answerItem a t]) = n + 1 /\
  answerCount (l ++ [answerItem a t]) = n + 1 /\
  alternating (l ++ [answerItem a t]) = true /\
  startsWithQuestion (l ++ [answerItem a t]) = true.
Proof.
  intro H. destruct (openLog_facts _ _ H) as (Hq & Ha & Halt & Hlast & Hhd).
  unfold questionCount, answerCount in *.
  rewrite !countType_app, alternating_snoc, Hq, Ha, Halt, Hlast.
  rewrite startsWithQuestion_app by (eapply openLog_nonempty; eauto).
  repeat split; try reflexivity; try assumption; unfold countType; simpl; lia.
Qed.

(** *** What each handler computes *)

(** Handlers are compositions of record updates: they are evaluated by
    value, so that a world is never copied before its fields are read. *)
Ltac unfold_handlers :=
  cbv beta iota zeta delta
    [generateNextQuestion endInterview startInterview_sync
     startInterview_resume timeoutCallback onresult onerror onend
     startRecording stopRecording interviewData
     storeLastInterview routerPush setTimer setMounted
     setConfig setCurrentQuestion setQuestionIndex setAnswer
     setIsRecording setIsLoading setTimeRemaining setSessionStarted
     setConversation setError setSpeechSupported
     emit upd seq skip
     st mounted timerArmed ls_interviewConfig ls_lastInterview log
     config currentQuestion questionIndex answer isRecording isLoading
     timeRemaining sessionStarted conversation error speechSupported].

Lemma rerender_same r now w :
  timeRemaining (st w) = timeRemaining r ->
  sessionStarted (st w) = sessionStarted r ->
  rerender r now w = w.
Proof.
  intros Ht Hs. unfold rerender, depsChanged.
  rewrite Ht, Hs, Z.eqb_refl, Bool.eqb_reflx. reflexivity.
Qed.

Lemma submitAnswer_blank r now w :
  truthy (trim (answer r)) = false ->
  submitAnswer r now w =
  setError (js "Please provide an answer before continuing.") w.
Proof. intro H. unfold submitAnswer. rewrite H. reflexivity. Qed.

Lemma submitAnswer_next r now w :
  truthy (trim (answer r)) = true ->
  (questionIndex r + 1 <? totalQuestions) = true ->
  submitAnswer r now w =
  mkWorld
    (mkState (config (st w)) (Some (pickQuestion (questionIndex r)))
       (questionIndex (st w) + 1) [] (isRecording (st w)) false
       (timeRemaining (st w)) (sessionStarted (st w))
       (conversation (st w) ++
          [answerItem (answer r) now;
           questionItem (pickQuestion (questionIndex r)) now])
       (error (st w)) (speechSupported (st w)))
    (mounted w) (timerArmed w) (ls_interviewConfig w) (ls_lastInterview w)
    (log w).
Proof.
  intros H1 H2. unfold submitAnswer. rewrite H1, H2. cbv [negb].
  unfold_handlers. rewrite <- app_assoc. reflexivity.
Qed.

Lemma submitAnswer_last r now w :
  truthy (trim (answer r)) = true ->
  (questionIndex r + 1 <? totalQuestions) = false ->
  submitAnswer r now w =
  mkWorld
    (mkState (config (st w)) (currentQuestion (st w))
       (questionIndex (st w)) [] (isRecording (st w)) false
       (timeRemaining (st w)) (sessionStarted (st w))
       (conversation (st w) ++ [answerItem (answer r) now])
       (error (st w)) (speechSupported (st w)))
    (mounted w) (timerArmed w) (ls_interviewConfig w)
    (Some (interviewData r now))
    (log w ++ [SetItem "lastInterview" (SData (interviewData r now))]
           ++ [Push "/interview/feedback"]).
Proof.
  intros H1 H2. unfold submitAnswer. rewrite H1, H2. cbv [negb].
  unfold_handlers. rewrite <- app_assoc. reflexivity.
Qed.

Lemma endInterview_world r now w :
  endInterview r now w =
  mkWorld (st w) (mounted w) (timerArmed w) (ls_interviewConfig w)
    (Some (interviewData r now))
    (log w ++ [SetItem "lastInterview" (SData (interviewData r now))]
           ++ [Push "/interview/feedback"]).
Proof.
  unfold_handlers. rewrite <- app_assoc. reflexivity.
Qed.

Lemma timerEffect_not_started r now w :
  sessionStarted r = false -> timerEffect r now w = w.
Proof.
  intro H. unfold timerEffect. rewrite H, andb_false_r. reflexivity.
Qed.

Lemma rerender_not_started r now w :
  sessionStarted (st w) = false -> timerArmed w = false ->
  rerender r now w = w.
Proof.
  intros Hs Ht. unfold rerender. destruct (depsChanged r (st w)); [|reflexivity].
  unfold seq. rewrite timerEffect_not_started by exact Hs.
  destruct w; simpl in *; subst; reflexivity.
Qed.

Lemma rerender_changed r now w :
  depsChanged r (st w) = true -> sessionStarted (st w) = true ->
  rerender r now w =
  if (0 <? timeRemaining (st w))%Z then setTimer true w
  else if (timeRemaining (st w) =? 0)%Z then
    endInterview (st w) now (setTimer false w)
  else setTimer false w.
Proof.
  intros Hd Hs. unfold rerender. rewrite Hd.
  unfold seq, timerEffect.
  replace (st (setTimer false w)) with (st w) by reflexivity.
  rewrite Hs, andb_true_l, andb_true_r.
  destruct (0 <? timeRemaining (st w))%Z.
  - destruct w; reflexivity.
  - destruct (timeRemaining (st w) =? 0)%Z; reflexivity.
Qed.

Lemma rerender_started r now w :
  sessionStarted r = false -> sessionStarted (st w) = true ->
  rerender r now w =
  if (0 <? timeRemaining (st w))%Z then setTimer true w
  else if (timeRemaining (st w) =? 0)%Z then
    endInterview (st w) now (setTimer false w)
  else setTimer false w.
Proof.
  intros Hr Hs. apply rerender_changed; [|exact Hs].
  unfold depsChanged. rewrite Hr, Hs. simpl Bool.eqb.
  now rewrite andb_false_r.
Qed.

(** Mounting a fresh page that finds a saved configuration. *)
Lemma mount_saved now speech c ll :
  mount now speech (mkWorld initialState false false (Some c) ll []) =
  let s := mkState (Some c) (Some q1) 0 [] false false (duration c * 60)%Z
             true [questionItem q1 now] [] speech in
  if (0 <? duration c * 60)%Z then
    mkWorld s true true (Some c) ll []
  else if (duration c * 60 =? 0)%Z then
    mkWorld s true false (Some c) (Some (interviewData s now))
      [SetItem "lastInterview" (SData (interviewData s now));
       Push "/interview/feedback"]
  else mkWorld s true false (Some c) ll [].
Proof.
  unfold mount.
  change (ls_interviewConfig (mkWorld initialState false false (Some c) ll []))
    with (Some c).
  change (st (mkWorld initialState false false (Some c) ll []))
    with initialState.
  set (w1 := (setMounted;; mountEffect initialState now speech;;
              timerEffect initialState now) _).
  assert (E1 : w1 =
    mkWorld (mkState (Some c) (Some q1) 0 [] false false (duration c * 60)%Z
               false [questionItem q1 now] [] speech)
            true false (Some c) ll []).
  { subst w1. unfold seq. rewrite timerEffect_not_started by reflexivity.
    unfold mountEffect, setMounted. cbv [ls_interviewConfig].
    unfold initialState. destruct speech; unfold_handlers; reflexivity. }
  rewrite E1. clear E1 w1.
  rewrite (rerender_not_started initialState) by reflexivity.
  rewrite rerender_started by reflexivity.
  unfold_handlers.
  destruct (0 <? duration c * 60)%Z; [reflexivity|].
  destruct (duration c * 60 =? 0)%Z; reflexivity.
Qed.

Lemma mount_unsaved now speech ll :
  mount now speech (mkWorld initialState false false None ll []) =
  mkWorld initialState true false None ll [Push "/interview/setup"].
Proof. reflexivity. Qed.

(** *** The session invariant *)

Lemma Inv_init saved : Inv saved (initialWorld saved).
Proof.
  repeat split; simpl; try discriminate.
Qed.

Lemma Inv_mount saved now speech w :
  Inv saved w -> mounted w = false ->
  Inv saved (mount now speech w).
Proof.
  intros (Hls & Hpre & _) Hm. destruct (Hpre Hm) as (Hst & Hlog & Hta).
  destruct w as [s m ta lc ll lg]; simpl in *; subst.
  destruct saved as [c|].
  - rewrite mount_saved. cbv zeta.
    destruct (0 <? duration c * 60)%Z eqn:E1;
      [|destruct (duration c * 60 =? 0)%Z eqn:E0];
      (split; [reflexivity|split; [discriminate|intros _]]);
      unfold live, navigated; simpl;
      repeat split; try reflexivity; try discriminate; try lia;
      unfold totalQuestions; try lia.
    + left. split; [reflexivity|constructor].
    + right. split; [reflexivity|]. eexists. split; [reflexivity|].
      repeat split. constructor. now left.
    + left. split; [reflexivity|constructor].
  - rewrite mount_unsaved. repeat split; discriminate.
Qed.

Lemma step_Tick now w :
  mounted w = true -> timerArmed w = true -> sessionStarted (st w) = true ->
  step now Tick w =
  Some (let w1 := timeoutCallback w in
        if (0 <? timeRemaining (st w1))%Z then setTimer true w1
        else if (timeRemaining (st w1) =? 0)%Z then
          endInterview (st w1) now (setTimer false w1)
        else setTimer false w1).
Proof.
  intros Hm Ha Hs. unfold step, enabled. rewrite Hm, Ha. simpl.
  f_equal. unfold seq.
  rewrite rerender_changed.
  - replace (st (timeoutCallback (setTimer false w)))
      with (st (timeoutCallback w)) by reflexivity.
    destruct (0 <? _)%Z; [reflexivity|].
    destruct (_ =? 0)%Z; reflexivity.
  - unfold depsChanged. simpl.
    replace (timeRemaining (st w) =? timeRemaining (st w) - 1)%Z with false;
      [reflexivity|]. symmetry. apply Z.eqb_neq. lia.
  - exact Hs.
Qed.

Lemma live_emit w e :
  isPush e = false -> live (emit e w) = live w.
Proof.
  intro H. unfold live, navigated, emit. simpl.
  rewrite existsb_app. simpl. rewrite H. now rewrite !orb_false_r.
Qed.

Lemma live_pushed s m ta lc ll lg l p :
  live (mkWorld s m ta lc ll (lg ++ l ++ [Push p])) = false.
Proof.
  unfold live, navigated. simpl.
  rewrite !existsb_app. simpl. now rewrite !orb_true_r.
Qed.

(** An event that leaves the log, the index, the clock and the timer alone
    keeps the invariant. *)
Lemma Inv_frame saved w w' :
  Inv saved w -> mounted w = true -> live w' = live w ->
  mounted w' = true -> timerArmed w' = timerArmed w ->
  ls_interviewConfig w' = ls_interviewConfig w ->
  ls_lastInterview w' = ls_lastInterview w ->
  config (st w') = config (st w) ->
  sessionStarted (st w') = sessionStarted (st w) ->
  questionIndex (st w') = questionIndex (st w) ->
  timeRemaining (st w') = timeRemaining (st w) ->
  conversation (st w') = conversation (st w) ->
  live w = true ->
  Inv saved w'.
Proof.
  intros (Hls & _ & Hpost) Hm Hl Hm' Hta Hlc Hll Hc Hs Hq Ht Hcv Hinit.
  specialize (Hpost Hm).
  split; [congruence|]. split; [congruence|]. intros _.
  destruct saved as [c|].
  - unfold recordOf. rewrite Hc, Hs, Hq, Ht, Hcv, Hta, Hl, Hll. exact Hpost.
  - destruct Hpost as (_ & _ & Hlive). congruence.
Qed.

Lemma Inv_step saved now e w w' :
  Inv saved w -> live w = true -> step now e w = Some w' -> Inv saved w'.
Proof.
  intros HI Hlive Hstep.
  destruct (mounted w) eqn:Hm.
  2:{ unfold step, enabled in Hstep. rewrite Hm in Hstep.
      destruct e; simpl in Hstep; try discriminate.
      inversion Hstep; subst. now apply Inv_mount. }
  assert (HI' := HI).
  destruct HI' as (Hls & _ & Hpost). specialize (Hpost Hm).
  destruct saved as [c|].
  2:{ destruct Hpost as (_ & _ & Hl). congruence. }
  destruct Hpost as (Hc & Hss & Hqi & Harm & Harmed & Htr & Hlog).
  destruct Hlog as [(_ & Hlog)|(Hl & _)]; [|congruence].
  specialize (Harmed Hlive).
  assert (Hui : forall h : Handler,
     (forall v, mounted (h v) = mounted v /\ timerArmed (h v) = timerArmed v /\
                ls_interviewConfig (h v) = ls_interviewConfig v /\
                ls_lastInterview (h v) = ls_lastInterview v /\
                live (h v) = live v /\
                config (st (h v)) = config (st v) /\
                sessionStarted (st (h v)) = sessionStarted (st v) /\
                questionIndex (st (h v)) = questionIndex (st v) /\
                timeRemaining (st (h v)) = timeRemaining (st v) /\
                conversation (st (h v)) = conversation (st v)) ->
     Inv (Some c) (rerender (st w) now (h w))).
  { intros h Hh.
    destruct (Hh w) as (H1 & H2 & H3 & H3' & H4 & H5 & H6 & H7 & H8 & H9).
    rewrite rerender_same by assumption.
    apply (Inv_frame _ w); congruence. }
  destruct e;
    try (unfold step in Hstep;
         destruct (enabled _ w) eqn:Hen; [|discriminate];
         inversion Hstep; subst w'; clear Hstep; unfold handle).
  - (* Mount *) unfold enabled in Hen. rewrite Hm in Hen. discriminate.
  - (* Tick *)
    assert (Hen' := Hen).
    unfold enabled in Hen. rewrite Hm in Hen. simpl in Hen.
    specialize (Harm Hen).
    assert (Hs := step_Tick now w Hm Hen Hss).
    unfold step in Hs. rewrite Hen' in Hs.
    inversion Hs as [Hs']. unfold handle in Hs'. rewrite Hs'. clear Hs Hs'.
    cbv zeta.
    replace (timeRemaining (st (timeoutCallback w)))
      with (timeRemaining (st w) - 1)%Z by reflexivity.
    destruct (0 <? timeRemaining (st w) - 1)%Z eqn:E1;
      [|destruct (timeRemaining (st w) - 1 =? 0)%Z eqn:E0].
    + split; [exact Hls|]. split; [simpl; congruence|]. intros _. simpl.
      rewrite Hc, Hss. repeat split; try assumption; try (intros; lia).
      left. split; assumption.
    + rewrite endInterview_world.
      split; [exact Hls|]. split; [simpl; congruence|]. intros _.
      unfold live, navigated. simpl. rewrite !existsb_app. simpl.
      rewrite !orb_true_r. simpl.
      rewrite Hc, Hss. repeat split; try assumption; try discriminate;
        try (intros; lia).
      right. split; [reflexivity|]. eexists. split; [reflexivity|].
      unfold recordOf. simpl. rewrite ?Hc. repeat split; try assumption.
      now left.
    + lia.
  - (* ChangeAnswer *) apply Hui. intro v. repeat split.
  - (* ClickClear *) apply Hui. intro v. repeat split.
  - (* ClickSubmit *)
    destruct (truthy (trim (answer (st w)))) eqn:Ha.
    2:{ rewrite submitAnswer_blank by exact Ha.
        apply (Hui (setError _)). intro v. repeat split. }
    destruct (questionIndex (st w) + 1 <? totalQuestions) eqn:Hq.
    + rewrite submitAnswer_next by assumption.
      rewrite rerender_same by reflexivity.
      apply Nat.ltb_lt in Hq.
      split; [exact Hls|]. split; [simpl; congruence|]. intros _. simpl.
      rewrite Hc, Hss. repeat split; try assumption; try (intros; tauto).
      left. split; [exact Hlive|]. rewrite Nat.add_1_r. now apply open_next.
    + rewrite submitAnswer_last by assumption.
      rewrite rerender_same by reflexivity.
      apply Nat.ltb_ge in Hq.
      split; [exact Hls|]. split; [simpl; congruence|]. intros _.
      rewrite live_pushed. simpl.
      rewrite Hc, Hss. repeat split; try assumption; try discriminate.
      right. split; [reflexivity|]. eexists. split; [reflexivity|].
      unfold recordOf. simpl. rewrite ?Hc. repeat split; try assumption.
      right. split; [unfold totalQuestions in *; lia|]. eauto.
  - (* ClickEnd *)
    rewrite rerender_same by reflexivity.
    rewrite endInterview_world.
    split; [exact Hls|]. split; [simpl; congruence|]. intros _.
    rewrite live_pushed. simpl.
    rewrite Hc, Hss. repeat split; try assumption; try discriminate.
    right. split; [reflexivity|]. eexists. split; [reflexivity|].
    unfold recordOf. simpl. rewrite ?Hc. repeat split; try assumption.
    now left.
  - (* ClickStartRecording *) apply Hui. intro v. unfold startRecording.
    destruct (speechSupported (st w)), throws; simpl; repeat split;
      unfold seq; try (rewrite live_emit by reflexivity); reflexivity.
  - (* ClickStopRecording *) apply Hui. intro v. unfold stopRecording.
    destruct (speechSupported (st w) && isRecording (st w)); simpl;
      repeat split; unfold seq;
      first [ reflexivity
            | change (live (emit RecognitionStop v) = live v);
              apply live_emit; reflexivity ].
  - (* SpeechResult *) apply Hui. intro v. repeat split.
  - (* SpeechError *) apply Hui. intro v. repeat split.
  - (* SpeechEnd *) apply Hui. intro v. repeat split.
Qed.

Lemma reachable_Inv saved w : reachable saved w -> Inv saved w.
Proof.
  induction 1 as [|w now e w' _ IH Hl Hs].
  - apply Inv_init.
  - eapply Inv_step; eauto.
Qed.

Lemma sessionRun_reachable saved evs :
  forall w w', reachable saved w -> sessionRun evs w = Some w' ->
               reachable saved w'.
Proof.
  induction evs as [|[now e] evs IH]; simpl; intros w w' Hr Hrun.
  - inversion Hrun; subst; exact Hr.
  - destruct (live w) eqn:Hl; [|discriminate].
    destruct (step now e w) as [w1|] eqn:Hs; [|discriminate].
    eapply IH; [|exact Hrun]. eapply reach_step; eauto.
Qed.

(** The facts about the log that the invariant gives. *)
Lemma reachable_log saved w :
  reachable saved w ->
  questionIndex (st w) < totalQuestions /\
  alternating (conversation (st w)) = true /\
  startsWithQuestion (conversation (st w)) = true /\
  (conversation (st w) = [] \/
   questionCount (conversation (st w)) = questionIndex (st w) + 1 /\
   (answerCount (conversation (st w)) = questionIndex (st w) \/
    live w = false /\
    answerCount (conversation (st w)) = questionIndex (st w) + 1)).
Proof.
  intro Hr. destruct (reachable_Inv _ _ Hr) as (_ & Hpre & Hpost).
  destruct (mounted w) eqn:Hm.
  - specialize (Hpost eq_refl). destruct saved as [c|].
    + destruct Hpost as (_ & _ & Hqi & _ & _ & _ & Hlog).
      split; [exact Hqi|].
      destruct Hlog as [(_ & Hlog)|(Hl & d & _ & _ & _ & _ & Hlog & [E|(_ & a & t & E)])].
      * destruct (openLog_facts _ _ Hlog) as (Hq & Ha & Halt & _ & Hhd).
        repeat split; try assumption. right. split; [exact Hq|now left].
      * rewrite E.
        destruct (openLog_facts _ _ Hlog) as (Hq & Ha & Halt & _ & Hhd).
        repeat split; try assumption. right. split; [exact Hq|now left].
      * rewrite E.
        destruct (closedLog_facts _ _ a t Hlog) as (Hq & Ha & Halt & Hhd).
        repeat split; try assumption. right. split; [exact Hq|].
        right. split; assumption.
    + destruct Hpost as (Hst & _). rewrite Hst. simpl.
      unfold totalQuestions. repeat split; try lia. now left.
  - destruct (Hpre eq_refl) as (Hst & _). rewrite Hst. simpl.
    unfold totalQuestions. repeat split; try lia. now left.
Qed.

Lemma lastSecond_reachable : reachable (Some sampleConfig) lastSecond.
Proof.
  apply (sessionRun_reachable _ (countdown 1199) (initialWorld (Some sampleConfig)));
    [apply reach_init|].
  vm_compute. reflexivity.
Qed.

Lemma answering_reachable : reachable (Some sampleConfig) answering.
Proof.
  apply (sessionRun_reachable _
           ((0, Mount false)%Z :: typeAndSubmit 60000 (js "ok")
              ++ [(61000, ChangeAnswer (js "ok"))%Z])
           (initialWorld (Some sampleConfig)));
    [apply reach_init|].
  vm_compute. reflexivity.
Qed.

(** ** The page after navigation *)

(** The handlers only ever append to the browser's effect log. *)
Lemma grows_skip : logGrows skip.
Proof. intro w. exists []. unfold skip. now rewrite app_nil_r. Qed.

Lemma grows_upd f : logGrows (upd f).
Proof. intro w. exists []. simpl. now rewrite app_nil_r. Qed.

Lemma grows_setTimer b : logGrows (setTimer b).
Proof. intro w. exists []. simpl. now rewrite app_nil_r. Qed.

Lemma grows_setMounted : logGrows setMounted.
Proof. intro w. exists []. simpl. now rewrite app_nil_r. Qed.

Lemma grows_emit e : logGrows (emit e).
Proof. intro w. now exists [e]. Qed.

Lemma grows_store d : logGrows (storeLastInterview d).
Proof. intro w. now exists [SetItem "lastInterview" (SData d)]. Qed.

Lemma grows_seq f g : logGrows f -> logGrows g -> logGrows (f ;; g).
Proof.
  intros Hf Hg w. unfold seq.
  destruct (Hf w) as (l1 & E1). destruct (Hg (f w)) as (l2 & E2).
  exists (l1 ++ l2). now rewrite E2, E1, app_assoc.
Qed.

Lemma grows_if (b : bool) f g :
  logGrows f -> logGrows g -> logGrows (if b then f else g).
Proof. now destruct b. Qed.

Ltac grows :=
  repeat match goal with
  | |- logGrows (seq _ _) => apply grows_seq
  | |- logGrows (if _ then _ else _) => apply grows_if
  | |- logGrows skip => exact grows_skip
  | |- logGrows (upd _) => apply grows_upd
  | |- logGrows (setTimer _) => apply grows_setTimer
  | |- logGrows setMounted => exact grows_setMounted
  | |- logGrows (emit _) => apply grows_emit
  | |- logGrows (routerPush _) => apply grows_emit
  | |- logGrows (storeLastInterview _) => apply grows_store
  | |- logGrows (setConfig _) => apply grows_upd
  | |- logGrows (setCurrentQuestion _) => apply grows_upd
  | |- logGrows (setQuestionIndex _) => apply grows_upd
  | |- logGrows (setAnswer _) => apply grows_upd
  | |- logGrows (setIsRecording _) => apply grows_upd
  | |- logGrows (setIsLoading _) => apply grows_upd
  | |- logGrows (setTimeRemaining _) => apply grows_upd
  | |- logGrows (setSessionStarted _) => apply grows_upd
  | |- logGrows (setConversation _) => apply grows_upd
  | |- logGrows (setError _) => apply grows_upd
  | |- logGrows (setSpeechSupported _) => apply grows_upd
  end.

Lemma grows_generateNextQuestion r now : logGrows (generateNextQuestion r now).
Proof. unfold generateNextQuestion. grows. Qed.

Lemma grows_endInterview r now : logGrows (endInterview r now).
Proof. unfold endInterview. grows. Qed.

Lemma grows_submitAnswer r now : logGrows (submitAnswer r now).
Proof.
  unfold submitAnswer. grows;
    first [apply grows_generateNextQuestion | apply grows_endInterview].
Qed.

Lemma grows_timerEffect r now : logGrows (timerEffect r now).
Proof. unfold timerEffect. grows. apply grows_endInterview. Qed.

Lemma grows_rerender r now : logGrows (rerender r now).
Proof.
  intro w. unfold rerender. destruct (depsChanged r (st w)).
  - apply grows_seq; [apply grows_setTimer|apply grows_timerEffect].
  - exists []. now rewrite app_nil_r.
Qed.

Lemma grows_mountEffect r now speech : logGrows (mountEffect r now speech).
Proof.
  intro w. unfold mountEffect. destruct (ls_interviewConfig w).
  - revert w. change (logGrows
      (setConfig (Some i) ;;
       setTimeRemaining (fun _ => duration i * 60)%Z ;;
       (if speech then setSpeechSupported true else skip) ;;
       startInterview_sync r now)).
    unfold startInterview_sync. grows. apply grows_generateNextQuestion.
  - apply grows_emit.
Qed.

Lemma grows_mount now speech : logGrows (mount now speech).
Proof.
  intro w. unfold mount. cbv zeta. unfold seq.
  assert (H1 : logGrows (setMounted ;; mountEffect (st w) now speech ;;
                         timerEffect (st w) now ;; rerender (st w) now)).
  { grows; [apply grows_mountEffect|apply grows_timerEffect|apply grows_rerender]. }
  destruct (H1 w) as (l1 & E1). unfold seq in E1.
  destruct (ls_interviewConfig w); [|now exists l1].
  match goal with |- context [rerender ?R now (startInterview_resume ?W)] =>
    destruct (grows_seq startInterview_resume (rerender R now)
                ltac:(unfold startInterview_resume; grows)
                ltac:(apply grows_rerender) W) as (l2 & E2)
  end.
  unfold seq in E2 |- *. exists (l1 ++ l2). now rewrite E2, E1, app_assoc.
Qed.

Lemma grows_handle now e r : logGrows (handle now e r).
Proof.
  destruct e; unfold handle, timeoutCallback, startRecording, stopRecording,
    onresult, onerror, onend; grows;
    first [apply grows_submitAnswer | apply grows_endInterview].
Qed.

Lemma step_log_grows now e w w' :
  step now e w = Some w' -> exists l, log w' = log w ++ l.
Proof.
  unfold step. destruct (enabled e w); [|discriminate].
  assert (H : logGrows (handle now e (st w) ;; rerender (st w) now))
    by (apply grows_seq; [apply grows_handle|apply grows_rerender]).
  specialize (H w). unfold seq in H.
  destruct e; intro E; inversion E; subst w'; try exact H.
  apply grows_mount.
Qed.

(** Navigation is never taken back. *)
Lemma step_live_back now e w w' :
  step now e w = Some w' -> live w' = true -> live w = true.
Proof.
  intros Hs. destruct (step_log_grows _ _ _ _ Hs) as (l & E).
  unfold live, navigated. rewrite E, existsb_app.
  destruct (existsb isPush (log w)); [discriminate|reflexivity].
Qed.

Lemma run_live_back evs :
  forall w w', run evs w = Some w' -> live w' = true -> live w = true.
Proof.
  induction evs as [|[now e] evs IH]; simpl; intros w w' Hrun Hl.
  - inversion Hrun; subst. exact Hl.
  - destruct (step now e w) as [w1|] eqn:Hs; [|discriminate].
    apply (step_live_back now e w w1 Hs). exact (IH w1 w' Hrun Hl).
Qed.

(** The page handles events whether or not it has asked to navigate
    ([run]); the states of a session ([reachable]) are those it goes
    through up to the event that ends the session.  A live state of the
    page is a state of the session. *)
Lemma run_live_reachable saved evs :
  forall w0 w, reachable saved w0 -> run evs w0 = Some w -> live w = true ->
               reachable saved w.
Proof.
  induction evs as [|[now e] evs IH]; simpl; intros w0 w Hr Hrun Hl.
  - inversion Hrun; subst. exact Hr.
  - destruct (step now e w0) as [w1|] eqn:Hs; [|discriminate].
    apply (IH w1 w); [|exact Hrun|exact Hl].
    apply (reach_step saved w0 now e w1 Hr); [|exact Hs].
    apply (step_live_back now e w0 w1 Hs).
    exact (run_live_back evs w1 w Hrun Hl).
Qed.

Lemma run_app evs evs' w :
  run (evs ++ evs') w
  = match run evs w with Some w1 => run evs' w1 | None => None end.
Proof.
  revert w. induction evs as [|[now e] evs IH]; intro w; simpl; [reflexivity|].
  destruct (step now e w); [apply IH|reflexivity].
Qed.

(** Conversely, every state of a session is a state of the page. *)
Lemma reachable_run saved w :
  reachable saved w -> exists evs, run evs (initialWorld saved) = Some w.
Proof.
  induction 1 as [|w now e w' _ (evs & IH) _ Hs].
  - now exists [].
  - exists (evs ++ [(now, e)]). rewrite run_app, IH. simpl. now rewrite Hs.
Qed.

(** The state one event after a live state of the page is a state of the
    session too: the last one, when the event ends the session. *)
Lemma run_live_step_reachable saved evs w now e w' :
  run evs (initialWorld saved) = Some w -> live w = true ->
  step now e w = Some w' ->
  reachable saved w /\ reachable saved w'.
Proof.
  intros Hrun Hl Hs.
  assert (Hr : reachable saved w)
    by exact (run_live_reachable saved evs (initialWorld saved) w
                (reach_init saved) Hrun Hl).
  split; [exact Hr|]. exact (reach_step saved w now e w' Hr Hl Hs).
Qed.

Lemma answering_run :
  run answeringEvents (initialWorld (Some sampleConfig)) = Some answering.
Proof. vm_compute. reflexivity. Qed.


Lemma answering_end :
  step 62000 ClickEnd answering
  = Some (endInterview (st answering) 62000 answering).
Proof. vm_compute. reflexivity. Qed.

(** ** The claims *)

Lemma truthy_true_iff (s : jsstring) : truthy s = true <-> s <> [].
Proof. destruct s; simpl; split; congruence. Qed.

Lemma started_enabled saved w :
  reachable saved w -> sessionStarted (st w) = true ->
  mounted w = true /\ exists c, saved = Some c /\ config (st w) = Some c.
Proof.
  intros Hr Hs. destruct (reachable_Inv _ _ Hr) as (_ & Hpre & Hpost).
  destruct (mounted w) eqn:Hm.
  - split; [reflexivity|]. specialize (Hpost eq_refl).
    destruct saved as [c|].
    + exists c. split; [reflexivity|]. apply Hpost.
    + destruct Hpost as (Hst & _). rewrite Hst in Hs. discriminate.
  - destruct (Hpre eq_refl) as (Hst & _). rewrite Hst in Hs. discriminate.
Qed.

(** C1.  In an active session (started, not yet ended) whose answer buffer
    is not empty after trimming, clicking Submit runs [submitAnswer], which
    empties the buffer and appends exactly one answer item; when
    [questionIndex + 1 < totalQuestions] it adds one to [questionIndex],
    appends exactly one question item and ends nothing; otherwise it leaves
    the index, appends no question, writes the record and navigates to the
    feedback page.  The log never holds more than [totalQuestions = 8]
    question items. *)
Theorem C1_submitAnswer_sequencing saved w now :
  reachable saved w -> live w = true -> sessionStarted (st w) = true ->
  trim (answer (st w)) <> [] ->
  let w' := submitAnswer (st w) now w in
  step now ClickSubmit w = Some w' /\
  answer (st w') = [] /\
  totalQuestions = 8 /\
  questionCount (conversation (st w')) <= totalQuestions /\
  if questionIndex (st w) + 1 <? totalQuestions then
    questionIndex (st w') = questionIndex (st w) + 1 /\
    conversation (st w') =
      conversation (st w) ++
      [answerItem (answer (st w)) now;
       questionItem (pickQuestion (questionIndex (st w))) now] /\
    log w' = log w /\ ls_lastInterview w' = ls_lastInterview w
  else
    questionIndex (st w') = questionIndex (st w) /\
    conversation (st w') =
      conversation (st w) ++ [answerItem (answer (st w)) now] /\
    ls_lastInterview w' = Some (interviewData (st w) now) /\
    log w' = log w ++ [SetItem "lastInterview" (SData (interviewData (st w) now));
                       Push "/interview/feedback"].
Proof.
  intros Hr Hl Hs Ha w'. apply truthy_true_iff in Ha.
  destruct (started_enabled _ _ Hr Hs) as (Hm & c & _ & Hc).
  destruct (reachable_log _ _ Hr) as (Hqi & _ & _ & Hcount).
  assert (Hq : questionCount (conversation (st w)) <= questionIndex (st w) + 1).
  { destruct Hcount as [E|(E & _)]; rewrite E; [|lia].
    unfold questionCount, countType. simpl. lia. }
  assert (Hstep : step now ClickSubmit w = Some w').
  { unfold step, enabled. rewrite Hm, Hc. simpl. f_equal.
    subst w'. destruct (questionIndex (st w) + 1 <? totalQuestions) eqn:E.
    - rewrite submitAnswer_next by assumption. now rewrite rerender_same.
    - rewrite submitAnswer_last by assumption. now rewrite rerender_same. }
  split; [exact Hstep|]. subst w'.
  destruct (questionIndex (st w) + 1 <? totalQuestions) eqn:E.
  - rewrite submitAnswer_next by assumption. simpl.
    apply Nat.ltb_lt in E. repeat split.
    unfold questionCount in *. rewrite countType_app. unfold countType at 2.
    simpl. lia.
  - rewrite submitAnswer_last by assumption. simpl. repeat split.
    unfold questionCount in *. rewrite countType_app. unfold countType at 2.
    simpl. unfold totalQuestions in *. lia.
Qed.

Lemma C1_submitAnswer_sequencing_witness :
  step 61000 ClickSubmit answering
  = Some (submitAnswer (st answering) 61000 answering) /\
  questionIndex (st (submitAnswer (st answering) 61000 answering)) = 2 /\
  List.length (conversation (st (submitAnswer (st answering) 61000 answering)))
  = 5.
Proof.
  pose proof (C1_submitAnswer_sequencing (Some sampleConfig) answering 61000
                answering_reachable eq_refl eq_refl) as H.
  assert (Ha : trim (answer (st answering)) <> []) by (vm_compute; discriminate).
  destruct (H Ha) as (H1 & _ & _ & _ & H2).
  split; [exact H1|]. vm_compute. split; reflexivity.
Defined.

Lemma reachable_counts saved w :
  reachable saved w ->
  answerCount (conversation (st w)) <= questionCount (conversation (st w)) /\
  questionCount (conversation (st w)) <= answerCount (conversation (st w)) + 1 /\
  alternating (conversation (st w)) = true.
Proof.
  intro Hr. destruct (reachable_log _ _ Hr) as (_ & Halt & _ & Hcount).
  destruct Hcount as [E|(Hq & [Ha|(_ & Ha)])].
  - rewrite E. unfold answerCount, questionCount, countType. simpl.
    repeat split; lia.
  - rewrite Hq, Ha. repeat split; try lia. exact Halt.
  - rewrite Hq, Ha. repeat split; try lia. exact Halt.
Qed.




(** C3.  In every state of a session started from a valid configuration:
    [questionIndex < totalQuestions]; once the first question has been
    issued the number of question items is [questionIndex + 1]; and
    [timeRemaining] is not negative. *)
Theorem C3_session_invariant c w :
  valid_config c -> reachable (Some c) w ->
  questionIndex (st w) < totalQuestions /\
  (conversation (st w) <> [] ->
   questionCount (conversation (st w)) = questionIndex (st w) + 1) /\
  (sessionStarted (st w) = true ->
   questionCount (conversation (st w)) = questionIndex (st w) + 1) /\
  (0 <= timeRemaining (st w))%Z.
Proof.
  intros (Hd & _) Hr.
  destruct (reachable_log _ _ Hr) as (Hqi & _ & _ & Hcount).
  split; [exact Hqi|]. split; [|split].
  - intro Hne. destruct Hcount as [E|(Hq & _)]; [contradiction|exact Hq].
  - intro Hs. destruct Hcount as [E|(Hq & _)]; [|exact Hq].
    destruct (started_enabled _ _ Hr Hs) as (Hm & _).
    destruct (reachable_Inv _ _ Hr) as (_ & _ & Hpost).
    destruct (Hpost Hm) as (_ & _ & _ & _ & _ & _ & Hlog).
    destruct Hlog as [(_ & Hlog)|(_ & d & _ & _ & _ & _ & Hlog & [E'|(_ & a & t & E')])].
    + apply openLog_nonempty in Hlog. contradiction.
    + apply openLog_nonempty in Hlog. congruence.
    + rewrite E' in E. destruct (d_conversation d); discriminate.
  - destruct (reachable_Inv _ _ Hr) as (_ & Hpre & Hpost).
    destruct (mounted w) eqn:Hm.
    + destruct (Hpost eq_refl) as (_ & _ & _ & _ & _ & Htr & _). apply Htr. lia.
    + destruct (Hpre eq_refl) as (Hst & _). rewrite Hst. simpl. lia.
Qed.

Lemma sampleConfig_valid : valid_config sampleConfig.
Proof. unfold valid_config. simpl. repeat split; lia. Qed.

Lemma C3_session_invariant_witness :
  questionIndex (st answering) < totalQuestions /\
  questionCount (conversation (st answering)) = questionIndex (st answering) + 1 /\
  (0 <= timeRemaining (st answering))%Z.
Proof.
  destruct (C3_session_invariant sampleConfig answering sampleConfig_valid
              answering_reachable) as (H1 & _ & H2 & H3).
  split; [exact H1|]. split; [exact (H2 eq_refl)|exact H3].
Defined.

(** C4.  Whatever the state, [submitAnswer] on a buffer that is empty or
    holds only white space sets the error message and does nothing else:
    the index, the log, the buffer, the current question, the stored record
    and the effects on the browser are as before. *)
Theorem C4_blank_answer_rejected w now :
  forallb isWhiteSpace (answer (st w)) = true ->
  let w' := submitAnswer (st w) now w in
  w' = setError (js "Please provide an answer before continuing.") w /\
  error (st w') = js "Please provide an answer before continuing." /\
  questionIndex (st w') = questionIndex (st w) /\
  conversation (st w') = conversation (st w) /\
  answer (st w') = answer (st w) /\
  currentQuestion (st w') = currentQuestion (st w) /\
  ls_lastInterview w' = ls_lastInterview w /\
  log w' = log w /\
  rerender (st w) now w' = w'.
Proof.
  intros Hb w'. apply truthy_trim_false in Hb.
  subst w'. rewrite submitAnswer_blank by exact Hb.
  repeat split. now apply rerender_same.
Qed.

Lemma C4_blank_answer_rejected_witness :
  let w := setAnswer (fun _ => js "   ") answering in
  conversation (st (submitAnswer (st w) 61000 w)) = conversation (st w) /\
  questionIndex (st (submitAnswer (st w) 61000 w)) = 1 /\
  log (submitAnswer (st w) 61000 w) = [].
Proof.
  intro w.
  destruct (C4_blank_answer_rejected w 61000 eq_refl)
    as (_ & _ & H1 & H2 & _ & _ & _ & H3 & _).
  split; [exact H2|]. split; [exact H1|exact H3].
Defined.




(** C6.  Mounting the session page on a valid saved configuration starts
    the session: [totalQuestions] is 8, [timeRemaining] is
    [duration * 60], the log holds exactly one item, a question, the
    countdown is armed.  At every later state of the session the log still
    begins with a question and holds no more answers than questions. *)
Theorem C6_start_issues_one_question c now speech w' :
  valid_config c -> reachable (Some c) w' ->
  exists w,
    step now (Mount speech) (initialWorld (Some c)) = Some w /\
    totalQuestions = 8 /\
    timeRemaining (st w) = (duration c * 60)%Z /\
    conversation (st w) = [questionItem q1 now] /\
    questionIndex (st w) = 0 /\
    sessionStarted (st w) = true /\ live w = true /\ timerArmed w = true /\
    startsWithQuestion (conversation (st w')) = true /\
    answerCount (conversation (st w')) <= questionCount (conversation (st w')).
Proof.
  intros (Hd & _) Hr.
  eexists. split; [reflexivity|].
  unfold initialWorld. rewrite mount_saved. cbv zeta.
  replace (0 <? duration c * 60)%Z with true by (symmetry; apply Z.ltb_lt; lia).
  simpl. repeat split.
  - apply (reachable_log _ _ Hr).
  - apply (reachable_counts _ _ Hr).
Qed.

Lemma C6_start_issues_one_question_witness :
  exists w,
    step 0 (Mount false) (initialWorld (Some sampleConfig)) = Some w /\
    timeRemaining (st w) = 1200%Z /\
    List.length (conversation (st w)) = 1 /\
    startsWithQuestion (conversation (st answering)) = true.
Proof.
  destruct (C6_start_issues_one_question sampleConfig 0 false answering
              sampleConfig_valid answering_reachable)
    as (w & H1 & _ & H2 & H3 & _ & _ & _ & _ & H4 & _).
  exists w. split; [exact H1|]. split; [exact H2|].
  split; [rewrite H3; reflexivity|exact H4].
Defined.

(** C7 fails on the code.  In the sample session eight answers are typed
    and submitted.  The eighth [submitAnswer] queues the answer for the log
    and calls [endInterview] in the same closure, where [conversation] is
    still the log of the current render: the page's log has 16 items, the
    record written under [lastInterview] has 15, the eighth answer is
    missing from it. *)
Theorem C7_last_answer_missing_from_record :
  exists w d,
    sessionRun eightAnswers (initialWorld (Some sampleConfig)) = Some w /\
    live w = false /\
    ls_lastInterview w = Some d /\
    List.length (conversation (st w)) = 16 /\
    List.length (d_conversation d) = 15 /\
    conversation (st w) = d_conversation d ++ [answerItem (js "ok") 480000] /\
    questionsAnswered d = 8.
Proof.
  eexists. eexists. split; [vm_compute; reflexivity|].
  repeat split.
Qed.

(** C8.  Whatever [fetch] does (it rejects, it resolves and the body does
    not parse, it resolves with an error status, it resolves with success),
    the object [request] returns has exactly one of the keys [data] and
    [error]. *)
Theorem C8_request_data_xor_error
  (number : Type) (isZero : number -> bool)
  (fetch : jsstring -> Api.RequestInit -> Api.Result (Api.Response number))
  (c : Api.ApiClient) (endpoint : jsstring) (options : Api.RequestInit) :
  let r := Api.request number isZero fetch c endpoint options in
  (exists d, Api.data number r = Some d /\ Api.error number r = None) \/
  (exists e, Api.error number r = Some e /\ Api.data number r = None).
Proof.
  intro r. subst r. unfold Api.request.
  destruct (fetch _ _) as [response|t].
  - destruct (Api.json number response) as [d|t].
    + destruct (Api.ok number response); simpl.
      * left. eauto.
      * destruct (Api.readMessage number d) as [m|t]; simpl; right; eauto.
    + right. simpl. eauto.
  - right. simpl. eauto.
Qed.

(** C9, as the claim states it, fails: with a role chosen and a job
    description pasted, both non-empty, [handleStartInterview] stores the
    configuration and navigates to the session. *)
Lemma C9_role_and_description_both_start :
  truthy (Setup.selectedRole roleAndDescription) = true /\
  truthy (trim (Setup.customJobDescription roleAndDescription)) = true /\
  Setup.handleStartInterview roleAndDescription
  = [SetItem "interviewConfig" (SConfig (Setup.configOf roleAndDescription));
     Push "/interview/session"] /\
  Setup.started (Setup.handleStartInterview roleAndDescription) = true.
Proof. repeat split. Qed.

(** C9, amended.  For every filling of the setup form: when neither a role
    nor a job description is present (both empty after trimming),
    [handleStartInterview] only alerts, nothing is stored and the page does
    not navigate.  In every other case (a role, a description, or both) it
    stores the configuration, both fields as they are, and navigates to the
    session. *)
Theorem C9_start_needs_role_or_description (s : Setup.State) :
  Setup.choosable s ->
  (trim (Setup.selectedRole s) = [] /\
   trim (Setup.customJobDescription s) = [] ->
   Setup.handleStartInterview s
   = [Alert "Please select a role or provide a job description"] /\
   Setup.started (Setup.handleStartInterview s) = false /\
   Setup.savedConfig (Setup.handleStartInterview s) = None) /\
  (trim (Setup.selectedRole s) <> [] \/
   trim (Setup.customJobDescription s) <> [] ->
   Setup.handleStartInterview s
   = [SetItem "interviewConfig" (SConfig (Setup.configOf s));
      Push "/interview/session"] /\
   Setup.started (Setup.handleStartInterview s) = true /\
   Setup.savedConfig (Setup.handleStartInterview s) = Some (Setup.configOf s)).
Proof.
  intro Hc.
  assert (Hrole : trim (Setup.selectedRole s) = [] <-> Setup.selectedRole s = []).
  { split; [|intro E; rewrite E; reflexivity].
    destruct Hc as [E|Hin]; [intros _; exact E|].
    unfold Setup.roleIds in Hin. simpl in Hin.
    intro Ht.
    repeat (destruct Hin as [E|Hin];
            [rewrite <- E in Ht; vm_compute in Ht; discriminate|]).
    contradiction. }
  unfold Setup.handleStartInterview. split.
  - intros (Hr & Hd). apply Hrole in Hr. rewrite Hr, Hd. repeat split.
  - intros [Hr|Hd].
    + rewrite Hrole in Hr. apply truthy_true_iff in Hr. rewrite Hr.
      repeat split.
    + apply truthy_true_iff in Hd. rewrite Hd, andb_false_r. repeat split.
Qed.

Lemma C9_start_needs_role_or_description_witness :
  Setup.started (Setup.handleStartInterview Setup.initialState) = false /\
  Setup.savedConfig (Setup.handleStartInterview roleOnly)
  = Some sampleConfig.
Proof.
  split.
  - apply (proj1 (C9_start_needs_role_or_description Setup.initialState
                    (or_introl eq_refl))).
    split; reflexivity.
  - destruct (proj2 (C9_start_needs_role_or_description roleOnly
                       (or_intror (or_introl eq_refl))))
      as (_ & _ & H).
    + left. vm_compute. discriminate.
    + exact H.
Defined.

Lemma st_rerender r now w : st (rerender r now w) = st w.
Proof.
  unfold rerender, seq, timerEffect.
  destruct (depsChanged r (st w)); [|reflexivity].
  destruct (sessionStarted (st w) && (0 <? timeRemaining (st w))%Z);
    [reflexivity|].
  destruct ((timeRemaining (st w) =? 0)%Z && sessionStarted (st w));
    [|reflexivity].
  rewrite endInterview_world. reflexivity.
Qed.

Lemma openLog_not_closed n l a t : ~ openLog n (l ++ [answerItem a t]).
Proof.
  intro H. apply openLog_facts in H.
  destruct H as (_ & _ & _ & H & _). rewrite lastType_snoc in H. discriminate.
Qed.

(** C10.  Whichever event ends a session, the record it leaves has
    [questionsAnswered = questionIndex + 1], which is the number of
    questions issued.  When the countdown or the End Interview button ends
    it, the record holds the page's log, whose last question is open:
    [questionsAnswered] is one more than the number of answers in the
    log. *)
Theorem C10_questionsAnswered_counts_open_question c now e w w' :
  reachable (Some c) w -> live w = true -> step now e w = Some w' ->
  live w' = false ->
  exists d,
    ls_lastInterview w' = Some d /\
    questionsAnswered d = questionIndex (st w') + 1 /\
    questionsAnswered d = questionCount (conversation (st w')) /\
    (e = Tick \/ e = ClickEnd ->
     d_conversation d = conversation (st w') /\
     answerCount (conversation (st w')) + 1 = questionsAnswered d).
Proof.
  intros Hr Hl Hs Hl'.
  assert (Hr' : reachable (Some c) w') by (eapply reach_step; eauto).
  destruct (reachable_Inv _ _ Hr') as (_ & Hpre' & Hpost').
  destruct (mounted w') eqn:Hm'.
  2:{ destruct (Hpre' eq_refl) as (_ & Hlog & _).
      unfold live, navigated in Hl'. rewrite Hlog in Hl'. discriminate. }
  destruct (Hpost' eq_refl) as (_ & _ & _ & _ & _ & _ & Hlog).
  destruct Hlog as [(Hl'' & _)|(_ & d & Hd & _ & _ & Hqa & Hopen & Hcv)];
    [congruence|].
  exists d. split; [exact Hd|]. split; [exact Hqa|].
  destruct (openLog_facts _ _ Hopen) as (Hq & Ha & _).
  split.
  - rewrite Hqa. destruct Hcv as [E|(_ & a & t & E)]; rewrite E; [now rewrite Hq|].
    unfold questionCount in *. rewrite countType_app, Hq.
    unfold countType. simpl. lia.
  - intro He.
    assert (Hst : conversation (st w') = conversation (st w) /\
                  questionIndex (st w') = questionIndex (st w)).
    { unfold step in Hs. destruct (enabled e w); [|discriminate].
      destruct He; subst e; inversion Hs; subst w'; rewrite st_rerender;
        split; reflexivity. }
    destruct Hst as (Hcv' & Hqi').
    assert (Hopen' : openLog (questionIndex (st w')) (conversation (st w'))).
    { rewrite Hcv', Hqi'.
      destruct (reachable_Inv _ _ Hr) as (_ & Hpre & Hpost).
      destruct (mounted w) eqn:Hm.
      - destruct (Hpost eq_refl) as (_ & _ & _ & _ & _ & _ & [(_ & H)|(H & _)]);
          [exact H|congruence].
      - unfold step, enabled in Hs. rewrite Hm in Hs.
        destruct He; subst e; discriminate. }
    destruct Hcv as [E|(_ & a & t & E)].
    + rewrite E. split; [reflexivity|]. rewrite Ha, Hqa. reflexivity.
    + rewrite E in Hopen'. now apply openLog_not_closed in Hopen'.
Qed.

Lemma C10_questionsAnswered_counts_open_question_witness :
  exists d,
    ls_lastInterview (endInterview (st answering) 62000 answering) = Some d /\
    questionsAnswered d = 2 /\
    answerCount (d_conversation d) = 1.
Proof.
  destruct (C10_questionsAnswered_counts_open_question sampleConfig 62000
              ClickEnd answering (endInterview (st answering) 62000 answering)
              answering_reachable eq_refl eq_refl eq_refl)
    as (d & H1 & H2 & _ & H3).
  exists d. split; [exact H1|]. split; [exact H2|].
  destruct (H3 (or_intror eq_refl)) as (H4 & _).
  rewrite H4. reflexivity.
Defined.

(** ** Further properties of the session page *)

(** What one event can do to a page. *)
Lemma step_inv now e w w' :
  step now e w = Some w' ->
  (exists speech, e = Mount speech /\ mounted w = false /\
                  w' = mount now speech w) \/
  (e = ClickSubmit /\ mounted w = true /\
   truthy (trim (answer (st w))) = true /\
   w' = submitAnswer (st w) now w) \/
  (mounted w = true /\ mounted w' = true /\
   config (st w') = config (st w) /\
   sessionStarted (st w') = sessionStarted (st w) /\
   conversation (st w') = conversation (st w) /\
   questionIndex (st w') = questionIndex (st w) /\
   currentQuestion (st w') = currentQuestion (st w) /\
   ls_interviewConfig w' = ls_interviewConfig w /\
   (e = Tick /\ timerArmed w = true /\
    timeRemaining (st w') = (timeRemaining (st w) - 1)%Z \/
    e <> Tick /\ e <> ClickSubmit /\
    timeRemaining (st w') = timeRemaining (st w) \/
    e = ClickSubmit /\ truthy (trim (answer (st w))) = false /\
    w' = setError (js "Please provide an answer before continuing.") w)).
Proof.
  unfold step. destruct (enabled e w) eqn:Hen; [|discriminate].
  assert (Hm : mounted w = true \/ exists speech, e = Mount speech /\ mounted w = false).
  { unfold enabled in Hen. destruct e, (mounted w); eauto; discriminate. }
  destruct e; intro H; inversion H; subst w'; clear H;
    try (destruct Hm as [Hm|(sp & E & _)]; [|discriminate]).
  - left. destruct Hm as [Hm|(sp & E & Hm)].
    + unfold enabled in Hen. rewrite Hm in Hen. discriminate.
    + inversion E; subst. eauto.
  - right. right. unfold enabled in Hen. rewrite Hm in Hen. simpl in Hen.
    rewrite !st_rerender. unfold handle.
    assert (Hmm : mounted (rerender (st w) now ((setTimer false;; timeoutCallback) w)) = true).
    { unfold rerender, seq. destruct (depsChanged _ _); [|exact Hm].
      unfold timerEffect. simpl.
      destruct (_ && _); [exact Hm|]. destruct (_ && _); exact Hm. }
    assert (Hls : ls_interviewConfig (rerender (st w) now ((setTimer false;; timeoutCallback) w)) = ls_interviewConfig w).
    { unfold rerender, seq. destruct (depsChanged _ _); [|reflexivity].
      unfold timerEffect. simpl.
      destruct (_ && _); [reflexivity|]. destruct (_ && _); reflexivity. }
    repeat split; try assumption. left. repeat split. exact Hen.
  - right. right. rewrite rerender_same by reflexivity. simpl.
    repeat split; try assumption. right. left. repeat split; discriminate.
  - right. right. rewrite rerender_same by reflexivity. simpl.
    repeat split; try assumption. right. left. repeat split; discriminate.
  - unfold handle. destruct (truthy (trim (answer (st w)))) eqn:Ha.
    + right. left. repeat split; try assumption.
      destruct (questionIndex (st w) + 1 <? totalQuestions) eqn:E.
      * rewrite submitAnswer_next by assumption. now rewrite rerender_same.
      * rewrite submitAnswer_last by assumption. now rewrite rerender_same.
    + right. right. rewrite submitAnswer_blank by exact Ha.
      rewrite rerender_same by reflexivity. simpl.
      repeat split; try assumption. right. right. repeat split.
  - right. right. rewrite st_rerender. unfold handle.
    rewrite rerender_same by reflexivity. rewrite endInterview_world. simpl.
    repeat split; try assumption. right. left. repeat split; discriminate.
  - right. right. unfold handle, startRecording.
    destruct (speechSupported (st w)), throws; simpl;
      rewrite rerender_same by reflexivity; simpl;
      repeat split; try assumption; right; left; repeat split; discriminate.
  - right. right. unfold handle, stopRecording.
    destruct (speechSupported (st w) && isRecording (st w)); simpl;
      rewrite rerender_same by reflexivity; simpl;
      repeat split; try assumption; right; left; repeat split; discriminate.
  - right. right. rewrite rerender_same by reflexivity. simpl.
    repeat split; try assumption. right. left. repeat split; discriminate.
  - right. right. rewrite rerender_same by reflexivity. simpl.
    repeat split; try assumption. right. left. repeat split; discriminate.
  - right. right. rewrite rerender_same by reflexivity. simpl.
    repeat split; try assumption. right. left. repeat split; discriminate.
Qed.

(** A property of the log, the index and the question shown holds of every
    state of a session when the first question establishes it and an
    accepted answer keeps it. *)
Lemma log_invariant
  (P : list ConversationItem -> nat -> option Question -> Prop) :
  P [] 0 None ->
  (forall now, P [questionItem q1 now] 0 (Some q1)) ->
  (forall cv qi cq a now,
     P cv qi cq -> cv <> [] -> qi + 1 < totalQuestions -> trim a <> [] ->
     P (cv ++ [answerItem a now; questionItem (pickQuestion qi) now])
       (qi + 1) (Some (pickQuestion qi))) ->
  (forall cv qi cq a now,
     P cv qi cq -> cv <> [] -> qi < totalQuestions ->
     totalQuestions <= qi + 1 -> trim a <> [] ->
     P (cv ++ [answerItem a now]) qi cq) ->
  forall saved w, reachable saved w ->
    P (conversation (st w)) (questionIndex (st w)) (currentQuestion (st w)).
Proof.
  intros H0 Hfirst Hnext Hlast saved w Hr.
  induction Hr as [|w now e w' Hr IH Hl Hs]; [exact H0|].
  destruct (reachable_log _ _ Hr) as (Hqi & _).
  destruct (step_inv _ _ _ _ Hs)
    as [(sp & _ & Hm & E)|[(_ & Hm & Ha & E)|(_ & _ & _ & _ & Hc & Hq & Hcq & _)]].
  - destruct (reachable_Inv _ _ Hr) as (Hls & Hpre & _).
    destruct (Hpre Hm) as (Hst & Hlog & Hta).
    subst w'. destruct w as [s m ta lc ll lg]. simpl in *. subst.
    destruct saved as [c|].
    + rewrite mount_saved. cbv zeta.
      destruct (0 <? _)%Z; [|destruct (_ =? 0)%Z]; apply Hfirst.
    + rewrite mount_unsaved. exact H0.
  - assert (Hne : conversation (st w) <> []).
    { destruct (reachable_Inv _ _ Hr) as (_ & _ & Hpost).
      specialize (Hpost Hm). destruct saved as [c|].
      - destruct Hpost as (_ & _ & _ & _ & _ & _ & [(_ & Ho)|(Hl' & _)]);
          [|congruence].
        eapply openLog_nonempty; eauto.
      - destruct Hpost as (_ & _ & Hl'). congruence. }
    subst w'. assert (Ha' := Ha). apply truthy_true_iff in Ha'.
    destruct (questionIndex (st w) + 1 <? totalQuestions) eqn:E.
    + rewrite submitAnswer_next by assumption.
      simpl. apply Nat.ltb_lt in E.
      now apply (Hnext _ _ (currentQuestion (st w))).
    + rewrite submitAnswer_last by assumption.
      simpl. apply Nat.ltb_ge in E. now apply Hlast.
  - rewrite Hc, Hq, Hcq. exact IH.
Qed.

Lemma firstn_mockQuestions qi :
  qi < totalQuestions ->
  firstn (qi + 1) mockQuestions = firstn qi mockQuestions ++ [pickQuestion qi].
Proof.
  unfold totalQuestions. intro H.
  do 8 (destruct qi as [|qi]; [reflexivity|]). lia.
Qed.

Lemma questionContents_app l l' :
  questionContents (l ++ l') = questionContents l ++ questionContents l'.
Proof. unfold questionContents. now rewrite filter_app, map_app. Qed.

Lemma answerContents_app l l' :
  answerContents (l ++ l') = answerContents l ++ answerContents l'.
Proof. unfold answerContents. now rewrite filter_app, map_app. Qed.

Lemma q8_not_among_first_seven qi :
  qi < totalQuestions ->
  ~ In (q_text q8) (map q_text (q1 :: firstn qi mockQuestions)).
Proof.
  unfold totalQuestions. intros H Hin.
  assert (Hsub : In (q_text q8) (map q_text [q1; q2; q3; q4; q5; q6; q7])).
  { revert Hin. do 8 (destruct qi as [|qi]; [simpl; tauto|]). lia. }
  simpl in Hsub.
  repeat (destruct Hsub as [E|Hsub]; [vm_compute in E; discriminate|]).
  exact Hsub.
Qed.

(** X1.  Once the first question is out, the questions of the log are, in
    order, the first mock question followed by the first [questionIndex]
    mock questions: [generateNextQuestion] reads the index of the render
    in which Submit was clicked, so the first question is asked twice and
    the eighth is never asked. *)
Theorem X1_questions_issued saved w :
  reachable saved w -> conversation (st w) <> [] ->
  questionContents (conversation (st w))
  = map q_text (q1 :: firstn (questionIndex (st w)) mockQuestions) /\
  ~ In (q_text q8) (questionContents (conversation (st w))).
Proof.
  intros Hr Hne.
  assert (H : conversation (st w) = [] \/
              questionContents (conversation (st w))
              = map q_text (q1 :: firstn (questionIndex (st w)) mockQuestions)).
  { apply (log_invariant
             (fun cv qi _ => cv = [] \/
                questionContents cv = map q_text (q1 :: firstn qi mockQuestions)))
      with (saved := saved); auto.
    - intros cv qi _ a now [E|IH] Hcv Hq _; [contradiction|].
      right. rewrite questionContents_app, IH.
      rewrite firstn_mockQuestions by lia.
      simpl. rewrite map_app. reflexivity.
    - intros cv qi _ a now [E|IH] Hcv _ _ _; [contradiction|].
      right. rewrite questionContents_app, IH. simpl. now rewrite app_nil_r. }
  destruct H as [E|E]; [contradiction|]. split; [exact E|].
  rewrite E. apply q8_not_among_first_seven.
  apply (reachable_log _ _ Hr).
Qed.

Lemma X1_questions_issued_witness :
  questionContents (conversation (st answering)) = [q_text q1; q_text q1] /\
  ~ In (q_text q8) (questionContents (conversation (st answering))).
Proof.
  apply (X1_questions_issued (Some sampleConfig) answering answering_reachable).
  discriminate.
Defined.

(** X2.  Once the first question is out, the question the page shows
    ([currentQuestion]) is the last question of the log. *)
Theorem X2_question_shown_is_last_logged saved w :
  reachable saved w -> conversation (st w) <> [] ->
  exists q,
    currentQuestion (st w) = Some q /\
    last (questionContents (conversation (st w))) [] = q_text q.
Proof.
  intros Hr Hne.
  assert (H : conversation (st w) = [] \/
              exists q, currentQuestion (st w) = Some q /\
                last (questionContents (conversation (st w))) [] = q_text q).
  { apply (log_invariant
             (fun cv _ cq => cv = [] \/
                exists q, cq = Some q /\ last (questionContents cv) [] = q_text q))
      with (saved := saved); auto.
    - intro now. right. exists q1. split; reflexivity.
    - intros cv qi cq a now _ _ _ _. right. exists (pickQuestion qi).
      split; [reflexivity|].
      rewrite questionContents_app.
      change (questionContents [answerItem a now; questionItem (pickQuestion qi) now])
        with [q_text (pickQuestion qi)].
      apply last_last.
    - intros cv qi cq a now [E|IH] Hcv _ _ _; [contradiction|].
      right. rewrite questionContents_app. simpl. now rewrite app_nil_r. }
  destruct H as [E|E]; [contradiction|exact E].
Qed.

Lemma X2_question_shown_is_last_logged_witness :
  exists q,
    currentQuestion (st answering) = Some q /\
    last (questionContents (conversation (st answering))) [] = q_text q.
Proof.
  apply (X2_question_shown_is_last_logged (Some sampleConfig) answering
           answering_reachable).
  discriminate.
Defined.

(** X3.  Only mounting and Submit touch the log, the index and the
    question shown: ticks, typing, Clear, End Interview, the recording
    buttons and the recognition callbacks leave them as they are, and of
    these only a tick changes the time remaining. *)
Theorem X3_other_events_keep_the_log now e w w' :
  step now e w = Some w' ->
  e <> ClickSubmit -> (forall speech, e <> Mount speech) ->
  conversation (st w') = conversation (st w) /\
  questionIndex (st w') = questionIndex (st w) /\
  currentQuestion (st w') = currentQuestion (st w) /\
  config (st w') = config (st w) /\
  (e <> Tick -> timeRemaining (st w') = timeRemaining (st w)).
Proof.
  intros Hs Hsub Hmount.
  destruct (step_inv _ _ _ _ Hs)
    as [(sp & E & _)|[(E & _)|(_ & _ & Hc & _ & Hcv & Hq & Hcq & _ & Ht)]].
  - exfalso. exact (Hmount sp E).
  - contradiction.
  - repeat split; try assumption.
    intro Htick. destruct Ht as [(E & _)|[(_ & _ & E)|(E & _)]];
      [contradiction|exact E|contradiction].
Qed.

Lemma X3_other_events_keep_the_log_witness :
  conversation (st (endInterview (st answering) 62000 answering))
  = conversation (st answering) /\
  questionIndex (st (endInterview (st answering) 62000 answering)) = 1.
Proof.
  destruct (X3_other_events_keep_the_log 62000 ClickEnd answering
              (endInterview (st answering) 62000 answering) eq_refl)
    as (H1 & H2 & _).
  - discriminate.
  - discriminate.
  - split; [exact H1|exact H2].
Defined.

Lemma timeRemaining_bounded c w :
  reachable (Some c) w -> mounted w = true ->
  (timeRemaining (st w) <= duration c * 60)%Z.
Proof.
  induction 1 as [|w now e w' Hr IH Hl Hs]; [discriminate|].
  intros _.
  destruct (step_inv _ _ _ _ Hs)
    as [(sp & _ & Hm & E)|[(_ & Hm & Ha & E)|(Hm & _ & _ & _ & _ & _ & _ & _ & Ht)]].
  - destruct (reachable_Inv _ _ Hr) as (Hls & Hpre & _).
    destruct (Hpre Hm) as (Hst & Hlog & Hta).
    subst w'. destruct w as [s m ta lc ll lg]. simpl in *. subst.
    rewrite mount_saved. cbv zeta.
    destruct (0 <? _)%Z; [|destruct (_ =? 0)%Z]; simpl; lia.
  - specialize (IH Hm). subst w'.
    destruct (questionIndex (st w) + 1 <? totalQuestions) eqn:E.
    + rewrite submitAnswer_next by assumption. exact IH.
    + rewrite submitAnswer_last by assumption. exact IH.
  - specialize (IH Hm).
    destruct Ht as [(_ & _ & E)|[(_ & _ & E)|(_ & _ & E)]].
    + lia.
    + lia.
    + subst w'. exact IH.
Qed.

(** X4.  While a started session is live, the one-second timeout is armed
    exactly when time remains, and the time remaining never exceeds the
    configured [duration * 60]. *)
Theorem X4_countdown_armed_while_time_remains c w :
  reachable (Some c) w -> live w = true -> sessionStarted (st w) = true ->
  (timerArmed w = true <-> (0 < timeRemaining (st w))%Z) /\
  (timeRemaining (st w) <= duration c * 60)%Z.
Proof.
  intros Hr Hl Hs.
  destruct (started_enabled _ _ Hr Hs) as (Hm & _).
  destruct (reachable_Inv _ _ Hr) as (_ & _ & Hpost).
  destruct (Hpost Hm) as (_ & _ & _ & Harm & Harmed & _).
  split; [split; auto|].
  now apply timeRemaining_bounded.
Qed.

Lemma X4_countdown_armed_while_time_remains_witness :
  (timerArmed answering = true <-> (0 < timeRemaining (st answering))%Z) /\
  (timeRemaining (st answering) <= 1200)%Z.
Proof.
  exact (X4_countdown_armed_while_time_remains sampleConfig answering
           answering_reachable eq_refl eq_refl).
Defined.

Lemma answers_nonblank saved w :
  reachable saved w ->
  Forall (fun a => trim a <> []) (answerContents (conversation (st w))).
Proof.
  intro Hr.
  apply (log_invariant (fun cv _ _ => Forall (fun a => trim a <> []) (answerContents cv)))
    with (saved := saved); [| | | |exact Hr].
  - constructor.
  - intro now. constructor.
  - intros cv qi cq a now IH _ _ Ha. rewrite answerContents_app.
    apply Forall_app. split; [exact IH|]. repeat constructor. exact Ha.
  - intros cv qi cq a now IH _ _ _ Ha. rewrite answerContents_app.
    apply Forall_app. split; [exact IH|]. repeat constructor. exact Ha.
Qed.

(** X5.  No blank answer is ever stored: in every state of a session each
    answer of the log is non-empty after trimming. *)
Theorem X5_no_blank_answer_in_log saved w :
  reachable saved w ->
  Forall (fun a => trim a <> []) (answerContents (conversation (st w))).
Proof. exact (answers_nonblank saved w). Qed.

Lemma X5_no_blank_answer_in_log_witness :
  Forall (fun a => trim a <> []) (answerContents (conversation (st answering))).
Proof.
  exact (X5_no_blank_answer_in_log (Some sampleConfig) answering
           answering_reachable).
Defined.

Lemma time_left_armed saved w :
  reachable saved w -> live w = true -> (0 < timeRemaining (st w))%Z ->
  mounted w = true /\ sessionStarted (st w) = true /\ timerArmed w = true.
Proof.
  intros Hr Hl Ht. destruct (reachable_Inv _ _ Hr) as (_ & Hpre & Hpost).
  destruct (mounted w) eqn:Hm.
  - specialize (Hpost eq_refl). destruct saved as [c|].
    + destruct Hpost as (_ & Hs & _ & _ & Harmed & _). auto.
    + destruct Hpost as (_ & _ & Hl'). congruence.
  - destruct (Hpre eq_refl) as (Hst & _). rewrite Hst in Ht. simpl in Ht. lia.
Qed.

(** X6.  The countdown ends the session by itself: from a live state with
    [n >= 1] seconds left, [n] ticks bring [timeRemaining] to 0, store the
    record and navigate.  The record holds the log as it was, and
    [questionsAnswered] is [questionIndex + 1]. *)
Theorem X6_countdown_runs_out saved w times :
  reachable saved w -> live w = true -> times <> [] ->
  timeRemaining (st w) = Z.of_nat (List.length times) ->
  exists w' d,
    sessionRun (ticks times) w = Some w' /\
    timeRemaining (st w') = 0%Z /\ live w' = false /\ timerArmed w' = false /\
    conversation (st w') = conversation (st w) /\
    ls_lastInterview w' = Some d /\
    d_conversation d = conversation (st w) /\
    questionsAnswered d = questionIndex (st w) + 1 /\
    completedAt d = last times 0%Z.
Proof.
  intros Hr Hl Hne. revert w Hr Hl.
  induction times as [|t times IH]; [contradiction|]. clear Hne.
  intros w Hr Hl Ht. simpl List.length in Ht.
  destruct (time_left_armed _ _ Hr Hl) as (Hm & Hs & Ha); [lia|].
  assert (Hstep := step_Tick t w Hm Ha Hs). cbv zeta in Hstep.
  replace (timeRemaining (st (timeoutCallback w)))
    with (timeRemaining (st w) - 1)%Z in Hstep by reflexivity.
  simpl ticks. simpl sessionRun. rewrite Hl, Hstep.
  destruct times as [|t' times].
  - simpl in Ht. rewrite Ht. simpl.
    rewrite endInterview_world. simpl.
    eexists. eexists. split; [reflexivity|]. simpl.
    rewrite Ht. simpl.
    split; [reflexivity|].
    split; [exact (live_pushed _ _ _ _ _ (log w) [SetItem _ _] _)|].
    repeat split.
  - assert (Hpos : (0 <? timeRemaining (st w) - 1)%Z = true).
    { apply Z.ltb_lt. rewrite Ht. simpl List.length. lia. }
    rewrite Hpos in *.
    assert (Hr' : reachable saved (setTimer true (timeoutCallback w))).
    { eapply reach_step; eauto. }
    destruct (IH ltac:(discriminate) _ Hr') as (w' & d & H1 & H2 & H3 & H4 & H5 & H6 & H7 & H8 & H9).
    + exact Hl.
    + simpl st. simpl timeRemaining. rewrite Ht. simpl List.length. lia.
    + exists w', d. repeat split; assumption.
Qed.

Lemma X6_countdown_runs_out_witness :
  exists w' d,
    sessionRun (ticks [1200000%Z]) lastSecond = Some w' /\
    timeRemaining (st w') = 0%Z /\ live w' = false /\
    ls_lastInterview w' = Some d /\
    d_conversation d = conversation (st lastSecond).
Proof.
  destruct (X6_countdown_runs_out (Some sampleConfig) lastSecond [1200000%Z]
              lastSecond_reachable eq_refl)
    as (w' & d & H1 & H2 & H3 & _ & _ & H4 & H5 & _).
  - discriminate.
  - reflexivity.
  - exists w', d. repeat split; assumption.
Defined.

Lemma transcript_answers k tas :
  k + List.length tas <= totalQuestions ->
  answerContents (transcript k tas) = map snd tas.
Proof.
  revert k. induction tas as [|[t a] tas IH]; intros k Hk; [reflexivity|].
  simpl List.length in Hk. simpl transcript.
  destruct (k + 1 <? totalQuestions) eqn:E.
  - change (answerContents (answerItem a t :: questionItem (pickQuestion k) t
                              :: transcript (k + 1) tas))
      with (a :: answerContents (transcript (k + 1) tas)).
    rewrite IH by lia. reflexivity.
  - apply Nat.ltb_ge in E.
    assert (tas = []) by (destruct tas; [reflexivity|simpl in Hk; lia]).
    subst tas. reflexivity.
Qed.

Lemma transcript_length k tas :
  k + List.length tas = totalQuestions -> tas <> [] ->
  List.length (transcript k tas) = 2 * List.length tas - 1.
Proof.
  revert k. induction tas as [|[t a] tas IH]; intros k Hk Hne; [contradiction|].
  simpl List.length in Hk. simpl transcript.
  destruct (k + 1 <? totalQuestions) eqn:E.
  - apply Nat.ltb_lt in E.
    assert (Hne' : tas <> []) by (intro X; subst tas; simpl in Hk; lia).
    change (List.length (answerItem a t :: questionItem (pickQuestion k) t
                           :: transcript (k + 1) tas))
      with (S (S (List.length (transcript (k + 1) tas)))).
    rewrite IH by (try assumption; lia).
    destruct tas; [contradiction|]. simpl List.length. lia.
  - apply Nat.ltb_ge in E.
    assert (tas = []) by (destruct tas; [reflexivity|simpl in Hk; lia]).
    subst tas. reflexivity.
Qed.

Lemma sessionRun_cons now e evs w w1 :
  live w = true -> step now e w = Some w1 ->
  sessionRun ((now, e) :: evs) w = sessionRun evs w1.
Proof. intros Hl Hs. simpl. now rewrite Hl, Hs. Qed.

(** Typing and submitting non-blank answers from a live page until the
    last question is answered. *)
Lemma typedAnswers_run c tas :
  forall w,
    mounted w = true -> config (st w) = Some c -> live w = true ->
    tas <> [] ->
    questionIndex (st w) + List.length tas = totalQuestions ->
    Forall (fun ta => trim (snd ta) <> []) tas ->
    exists w' d,
      sessionRun (typedAnswers tas) w = Some w' /\
      live w' = false /\
      conversation (st w')
      = conversation (st w) ++ transcript (questionIndex (st w)) tas /\
      ls_lastInterview w' = Some d /\
      conversation (st w')
      = d_conversation d ++ [answerItem (snd (last tas (0%Z, []))) (fst (last tas (0%Z, [])))] /\
      questionsAnswered d = totalQuestions.
Proof.
  induction tas as [|[t a] tas IH]; intros w Hm Hc Hl Hne Hk Hall;
    [contradiction|]. clear Hne.
  inversion Hall as [|x l Ha Hall']; subst. simpl in Ha.
  apply truthy_true_iff in Ha.
  simpl List.length in Hk.
  unfold typedAnswers. simpl flat_map. fold (typedAnswers tas).
  unfold typeAndSubmit. simpl app. simpl fst. simpl snd.
  set (w1 := setAnswer (fun _ => a) w).
  assert (H1 : step t (ChangeAnswer a) w = Some w1).
  { unfold step, enabled. rewrite Hm, Hc. simpl.
    now rewrite rerender_same. }
  assert (H2 : step t ClickSubmit w1 = Some (submitAnswer (st w1) t w1)).
  { unfold step, enabled. simpl. rewrite Hm, Hc. simpl. f_equal.
    destruct (questionIndex (st w1) + 1 <? totalQuestions) eqn:E.
    - rewrite submitAnswer_next by assumption. now rewrite rerender_same.
    - rewrite submitAnswer_last by assumption. now rewrite rerender_same. }
  simpl sessionRun. rewrite Hl, H1.
  replace (live w1) with true by (symmetry; exact Hl).
  rewrite H2. simpl transcript.
  change (questionIndex (st w1)) with (questionIndex (st w)) in *.
  destruct (questionIndex (st w) + 1 <? totalQuestions) eqn:E.
  - rewrite submitAnswer_next by assumption.
    apply Nat.ltb_lt in E.
    destruct tas as [|ta tas]; [simpl in Hk; lia|].
    match goal with |- context [sessionRun _ ?W] => set (w2 := W) end.
    destruct (IH w2) as (w' & d & R1 & R2 & R3 & R4 & R5 & R6);
      try assumption; try discriminate.
    + simpl. simpl List.length in *. lia.
    + exists w', d. split; [exact R1|]. split; [exact R2|].
      split; [|split; [exact R4|split; [exact R5|exact R6]]].
      rewrite R3. subst w2. simpl. rewrite <- app_assoc. reflexivity.
  - rewrite submitAnswer_last by assumption.
    apply Nat.ltb_ge in E.
    assert (tas = []) by (destruct tas; [reflexivity|simpl in Hk; lia]).
    subst tas. simpl.
    eexists. eexists. split; [reflexivity|]. simpl.
    split; [exact (live_pushed _ _ _ _ _ (log w) [SetItem _ _] _)|].
    repeat split. simpl in Hk. exact Hk.
Qed.

(** X7.  A session in which eight non-blank answers are typed and
    submitted, whatever they are: the eighth Submit ends it.  The log then
    holds 16 items, the eight answers exactly as typed and in order; the
    stored record holds the log without its last answer. *)
Theorem X7_eight_answers_end_the_session c t0 speech tas :
  valid_config c -> List.length tas = totalQuestions ->
  Forall (fun ta => trim (snd ta) <> []) tas ->
  exists w d,
    sessionRun ((t0, Mount speech) :: typedAnswers tas) (initialWorld (Some c))
    = Some w /\
    live w = false /\
    conversation (st w) = questionItem q1 t0 :: transcript 0 tas /\
    answerContents (conversation (st w)) = map snd tas /\
    List.length (conversation (st w)) = 16 /\
    ls_lastInterview w = Some d /\
    conversation (st w)
    = d_conversation d ++ [answerItem (snd (last tas (0%Z, []))) (fst (last tas (0%Z, [])))] /\
    questionsAnswered d = totalQuestions.
Proof.
  intros (Hd & _) Hlen Hall.
  assert (Hmount : exists w0,
            step t0 (Mount speech) (initialWorld (Some c)) = Some w0 /\
            mounted w0 = true /\ config (st w0) = Some c /\ live w0 = true /\
            questionIndex (st w0) = 0 /\
            conversation (st w0) = [questionItem q1 t0]).
  { eexists. split; [reflexivity|].
    unfold initialWorld. rewrite mount_saved. cbv zeta.
    replace (0 <? duration c * 60)%Z with true
      by (symmetry; apply Z.ltb_lt; lia).
    repeat split. }
  destruct Hmount as (w0 & Hs0 & Hm0 & Hc0 & Hl0 & Hq0 & Hcv0).
  rewrite (sessionRun_cons t0 (Mount speech) (typedAnswers tas)
             (initialWorld (Some c)) w0 eq_refl Hs0).
  assert (Hne : tas <> []) by (intro E; subst tas; discriminate).
  assert (Hlen0 : questionIndex (st w0) + List.length tas = totalQuestions)
    by (rewrite Hq0; exact Hlen).
  destruct (typedAnswers_run c tas w0 Hm0 Hc0 Hl0 Hne Hlen0 Hall)
    as (w & d & R1 & R2 & R3 & R4 & R5 & R6).
  rewrite Hq0, Hcv0 in R3.
  assert (T1 := transcript_answers 0 tas ltac:(simpl; lia)).
  assert (T2 := transcript_length 0 tas Hlen Hne).
  exists w, d. split; [exact R1|]. split; [exact R2|].
  split; [exact R3|].
  split; [rewrite R3; exact T1|].
  split; [rewrite R3; simpl; rewrite T2, Hlen; reflexivity|].
  split; [exact R4|]. split; [exact R5|exact R6].
Qed.

Lemma X7_eight_answers_end_the_session_witness :
  exists w d,
    sessionRun eightAnswers (initialWorld (Some sampleConfig)) = Some w /\
    live w = false /\
    List.length (conversation (st w)) = 16 /\
    ls_lastInterview w = Some d /\
    questionsAnswered d = 8.
Proof.
  destruct (X7_eight_answers_end_the_session sampleConfig 0 false
              (map (fun k => (Z.of_nat k * 60000, js "ok")%Z) [1; 2; 3; 4; 5; 6; 7; 8])
              sampleConfig_valid eq_refl)
    as (w & d & H1 & H2 & _ & _ & H3 & H4 & _ & H5).
  - repeat constructor; vm_compute; discriminate.
  - exists w, d. repeat split; assumption.
Defined.

(** *** The clock *)









(** *** From the setup page to the record *)

Lemma ended_record c w :
  reachable (Some c) w -> live w = false ->
  mounted w = true /\ exists d, ls_lastInterview w = Some d /\ recordOf c w d.
Proof.
  intros Hr Hl. destruct (reachable_Inv _ _ Hr) as (_ & Hpre & Hpost).
  destruct (mounted w) eqn:Hm.
  - split; [reflexivity|].
    destruct (Hpost eq_refl) as (_ & _ & _ & _ & _ & _ & [(Hl' & _)|(_ & H)]);
      [congruence|exact H].
  - destruct (Hpre eq_refl) as (_ & Hlog & _).
    unfold live, navigated in Hl. rewrite Hlog in Hl. discriminate.
Qed.

(** X9.  The configuration chosen on the setup page is the one the
    finished interview is stored with: when [handleStartInterview] starts a
    session, every way that session ends leaves a record whose [config] is
    the form's configuration, with [totalQuestions = 8]. *)
Theorem X9_record_keeps_the_configuration s w :
  Setup.started (Setup.handleStartInterview s) = true ->
  reachable (Setup.savedConfig (Setup.handleStartInterview s)) w ->
  live w = false ->
  exists d,
    ls_lastInterview w = Some d /\
    d_config d = Some (Setup.configOf s) /\
    d_totalQuestions d = 8 /\
    config (st w) = Some (Setup.configOf s).
Proof.
  unfold Setup.handleStartInterview.
  destruct (negb (truthy (Setup.selectedRole s))
            && negb (truthy (trim (Setup.customJobDescription s))));
    [discriminate|].
  intros _ Hr Hl. simpl in Hr.
  destruct (ended_record _ _ Hr Hl) as (Hm & d & Hd & Hc & Ht & _).
  exists d. repeat split; try assumption.
  destruct (reachable_Inv _ _ Hr) as (_ & _ & Hpost).
  apply (Hpost Hm).
Qed.

Lemma X9_record_keeps_the_configuration_witness :
  exists d,
    ls_lastInterview (endInterview (st answering) 62000 answering) = Some d /\
    d_config d = Some sampleConfig.
Proof.
  assert (Hr : reachable (Setup.savedConfig (Setup.handleStartInterview roleOnly))
                 (endInterview (st answering) 62000 answering)).
  { apply (reach_step _ answering 62000 ClickEnd);
      [exact answering_reachable|reflexivity|reflexivity]. }
  destruct (X9_record_keeps_the_configuration roleOnly _ eq_refl Hr eq_refl)
    as (d & H1 & H2 & _).
  exists d. split; [exact H1|exact H2].
Defined.

(** *** The feedback page *)

Lemma openLog_left n l :
  openLog n l ->
  match n with
  | 0 => exists q t, l = [questionItem q t]
  | S m => exists q t a t' rest,
      l = questionItem q t :: answerItem a t' :: rest /\ openLog m rest
  end.
Proof.
  induction 1 as [q t|n l a t q t' H IH].
  - eauto.
  - destruct n as [|m].
    + destruct IH as (q0 & t0 & E). subst l.
      exists q0, t0, a, t, [questionItem q t']. split; [reflexivity|constructor].
    + destruct IH as (q0 & t0 & a0 & t0' & rest & E & Hrest). subst l.
      exists q0, t0, a0, t0', (rest ++ [answerItem a t; questionItem q t']).
      split; [reflexivity|]. now constructor.
Qed.

Lemma find_past_prefix k j pre suf :
  j + List.length pre <= k + 1 ->
  find (fun p => (k <? fst p) && Feedback.isType ty_answer (snd p))
       (Feedback.indexedFrom j (pre ++ suf))
  = find (fun p => (k <? fst p) && Feedback.isType ty_answer (snd p))
         (Feedback.indexedFrom (j + List.length pre) suf).
Proof.
  revert j. induction pre as [|x pre IH]; intros j Hj; simpl.
  - now rewrite Nat.add_0_r.
  - simpl in Hj. replace (k <? j) with false by (symmetry; apply Nat.ltb_ge; lia).
    simpl. rewrite IH by lia. f_equal. f_equal. lia.
Qed.

Lemma answerAfter_next pre q a rest :
  Feedback.isType ty_answer a = true ->
  Feedback.answerAfter (pre ++ q :: a :: rest) (List.length pre) = Some a.
Proof.
  intro Ha. unfold Feedback.answerAfter.
  change (pre ++ q :: a :: rest) with (pre ++ [q] ++ a :: rest).
  rewrite app_assoc, find_past_prefix by (rewrite length_app; simpl; lia).
  simpl. rewrite length_app. simpl.
  replace (List.length pre <? List.length pre + 1) with true
    by (symmetry; apply Nat.ltb_lt; lia).
  rewrite Ha. reflexivity.
Qed.

Lemma analysis_of_openLog drawn n :
  forall l pre n0,
    openLog n l ->
    map (fun e => (Feedback.qa_question e, Feedback.qa_answer e))
        (Feedback.mapi drawn n0
           (filter (Feedback.keptQuestion (pre ++ l))
                   (Feedback.indexedFrom (List.length pre) l))
           (pre ++ l))
    = Feedback.answeredPairs l.
Proof.
  induction n as [|n IH]; intros l pre n0 Ho; apply openLog_left in Ho.
  - destruct Ho as (q & t & E). subst l. simpl.
    unfold Feedback.keptQuestion. simpl. rewrite length_app. simpl.
    replace (List.length pre <? List.length pre + 1 - 1) with false
      by (symmetry; apply Nat.ltb_ge; lia).
    reflexivity.
  - destruct Ho as (q & t & a & t' & rest & E & Hrest). subst l.
    specialize (IH rest (pre ++ [questionItem q t; answerItem a t']) (S n0) Hrest).
    rewrite <- app_assoc in IH. simpl app in IH.
    rewrite length_app in IH. simpl List.length in IH.
    replace (List.length pre + 2) with (S (S (List.length pre))) in IH by lia.
    assert (K1 : Feedback.keptQuestion
                   (pre ++ questionItem q t :: answerItem a t' :: rest)
                   (List.length pre, questionItem q t) = true).
    { unfold Feedback.keptQuestion. simpl. rewrite length_app. simpl.
      apply Nat.ltb_lt. lia. }
    assert (K2 : Feedback.keptQuestion
                   (pre ++ questionItem q t :: answerItem a t' :: rest)
                   (S (List.length pre), answerItem a t') = false) by reflexivity.
    cbn [Feedback.indexedFrom filter]. rewrite K1, K2.
    cbn [Feedback.mapi map fst snd Feedback.answeredPairs].
    rewrite answerAfter_next by reflexivity.
    f_equal. exact IH.
Qed.

Lemma answeredPairs_of_openLog n :
  forall l, openLog n l ->
    Forall (fun a => trim a <> []) (answerContents l) ->
    map fst (Feedback.answeredPairs l) = removelast (questionContents l) /\
    map snd (Feedback.answeredPairs l) = answerContents l /\
    List.length (Feedback.answeredPairs l) = n.
Proof.
  induction n as [|n IH]; intros l Ho Hall; apply openLog_left in Ho.
  - destruct Ho as (q & t & E). subst l. repeat split.
  - destruct Ho as (q & t & a & t' & rest & E & Hrest). subst l.
    change (answerContents (questionItem q t :: answerItem a t' :: rest))
      with (a :: answerContents rest) in *.
    inversion Hall as [|x y Ha Hall']; subst.
    destruct (IH rest Hrest Hall') as (H1 & H2 & H3).
    simpl Feedback.answeredPairs. simpl map. simpl List.length.
    rewrite H1, H2, H3.
    assert (Hne : questionContents rest <> []).
    { destruct (openLog_facts _ _ Hrest) as (Hq & _).
      unfold questionCount, countType in Hq. unfold questionContents.
      intro E. apply (f_equal (@List.length _)) in E.
      rewrite length_map in E. simpl in E. lia. }
    change (questionContents (questionItem q t :: answerItem a t' :: rest))
      with (q_text q :: questionContents rest).
    repeat split.
    + simpl. destruct (questionContents rest); [contradiction|reflexivity].
    + f_equal. simpl. destruct a; [contradiction (Ha eq_refl)|reflexivity].
Qed.

Lemma ended_record_analysis drawn c w :
  reachable (Some c) w -> live w = false ->
  exists d,
    ls_lastInterview w = Some d /\
    map Feedback.qa_question (Feedback.questionAnalysis drawn (d_conversation d))
    = removelast (questionContents (d_conversation d)) /\
    map Feedback.qa_answer (Feedback.questionAnalysis drawn (d_conversation d))
    = answerContents (d_conversation d) /\
    List.length (Feedback.questionAnalysis drawn (d_conversation d)) + 1
    = questionsAnswered d.
Proof.
  intros Hr Hl.
  destruct (ended_record _ _ Hr Hl) as (_ & d & Hd & _ & _ & Hqa & Ho & Hcv).
  exists d. split; [exact Hd|].
  assert (Hall : Forall (fun a => trim a <> []) (answerContents (d_conversation d))).
  { assert (H := answers_nonblank _ _ Hr).
    destruct Hcv as [E|(_ & a & t & E)]; rewrite E in H; [exact H|].
    rewrite answerContents_app in H. apply Forall_app in H. apply H. }
  destruct (answeredPairs_of_openLog _ _ Ho Hall) as (H1 & H2 & H3).
  assert (Hp := analysis_of_openLog drawn _ _ [] 0 Ho).
  simpl in Hp. fold (Feedback.questionAnalysis drawn (d_conversation d)) in Hp.
  rewrite <- H1, <- H2, <- Hp, !map_map. simpl.
  repeat split.
  rewrite Hqa, <- H3, <- Hp, length_map. lia.
Qed.

(** X10.  What the feedback page lists for the record that the event
    ending a session writes.  Whatever events the page has handled without
    asking to navigate, when the next event ends the session (the last
    second, End Interview, the eighth Submit) the record it stores gives
    one entry for each answered question of the record, in order, with the
    answer that was given; the record's last question, which is open, is
    left out, so that there is one entry fewer than the record's
    [questionsAnswered].  The statement is about this first record only:
    the page goes on handling events, and a later End Interview or Submit
    writes another one. *)
Theorem X10_analysis_of_the_ending_record drawn c evs w now e w' :
  run evs (initialWorld (Some c)) = Some w -> live w = true ->
  step now e w = Some w' -> live w' = false ->
  exists d,
    ls_lastInterview w' = Some d /\
    map Feedback.qa_question (Feedback.questionAnalysis drawn (d_conversation d))
    = removelast (questionContents (d_conversation d)) /\
    map Feedback.qa_answer (Feedback.questionAnalysis drawn (d_conversation d))
    = answerContents (d_conversation d) /\
    List.length (Feedback.questionAnalysis drawn (d_conversation d)) + 1
    = questionsAnswered d.
Proof.
  intros Hrun Hl Hs Hl'.
  apply (ended_record_analysis drawn c w'); [|exact Hl'].
  exact (proj2 (run_live_step_reachable (Some c) evs w now e w' Hrun Hl Hs)).
Qed.

Lemma X10_analysis_of_the_ending_record_witness :
  exists d,
    ls_lastInterview (endInterview (st answering) 62000 answering) = Some d /\
    List.length (Feedback.questionAnalysis (fun _ => (70%Z, [])) (d_conversation d)) + 1
    = questionsAnswered d.
Proof.
  destruct (X10_analysis_of_the_ending_record (fun _ => (70%Z, [])) sampleConfig
              answeringEvents answering 62000%Z ClickEnd
              (endInterview (st answering) 62000 answering)
              answering_run eq_refl answering_end eq_refl)
    as (d & H1 & _ & _ & H2).
  exists d. split; [exact H1|exact H2].
Defined.

(** *** The API client *)

Lemma headerOf_app k hs hs' :
  ApiCalls.headerOf k (hs ++ hs')
  = match ApiCalls.headerOf k hs' with
    | Some v => Some v
    | None => ApiCalls.headerOf k hs
    end.
Proof.
  induction hs as [|[k' v] hs IH]; simpl.
  - now destruct (ApiCalls.headerOf k hs').
  - rewrite IH. now destruct (ApiCalls.headerOf k hs').
Qed.

Lemma fetchInit_headers c options t :
  Api.token c = Some t -> t <> [] ->
  Api.headers (ApiCalls.fetchInit c options)
  = (("Content-Type", js "application/json") :: Api.headers options)
    ++ [("Authorization", js "Bearer " ++ t)].
Proof.
  intros Ht Hne. unfold ApiCalls.fetchInit, Api.withAuth.
  cbn [Api.headers]. rewrite Ht. destruct t; [contradiction|reflexivity].
Qed.

(** X11.  [request] reads [fetch] at one pair of arguments only: the URL
    [baseUrl + endpoint] and the caller's options with the headers
    completed.  When the client holds a token, the [Authorization] entry
    of the headers object handed to [fetch] is [Bearer <token>] whatever
    the caller put under that key; the caller's [Content-Type] replaces
    the default [application/json]; method and body go through
    unchanged. *)
Theorem X11_request_sends_the_token
  (number : Type) (isZero : number -> bool)
  (fetch fetch' : jsstring -> Api.RequestInit -> Api.Result (Api.Response number))
  (c : Api.ApiClient) (endpoint : jsstring) (options : Api.RequestInit)
  (t : jsstring) :
  Api.token c = Some t -> t <> [] ->
  (fetch (ApiCalls.fetchUrl c endpoint) (ApiCalls.fetchInit c options)
   = fetch' (ApiCalls.fetchUrl c endpoint) (ApiCalls.fetchInit c options) ->
   Api.request number isZero fetch c endpoint options
   = Api.request number isZero fetch' c endpoint options) /\
  ApiCalls.headerOf "Authorization" (Api.headers (ApiCalls.fetchInit c options))
  = Some (js "Bearer " ++ t) /\
  ApiCalls.headerOf "Content-Type" (Api.headers (ApiCalls.fetchInit c options))
  = match ApiCalls.headerOf "Content-Type" (Api.headers options) with
    | Some v => Some v
    | None => Some (js "application/json")
    end /\
  Api.method (ApiCalls.fetchInit c options) = Api.method options /\
  Api.body (ApiCalls.fetchInit c options) = Api.body options.
Proof.
  intros Ht Hne. split; [|split; [|split; [|split]]].
  - intro H. unfold Api.request.
    change (Api.baseUrl c ++ endpoint) with (ApiCalls.fetchUrl c endpoint).
    change (Api.mkInit (Api.method options) (Api.body options)
              (Api.withAuth c (("Content-Type", js "application/json")
                                 :: Api.headers options)))
      with (ApiCalls.fetchInit c options).
    now rewrite H.
  - rewrite (fetchInit_headers c options t Ht Hne), headerOf_app. reflexivity.
  - rewrite (fetchInit_headers c options t Ht Hne), headerOf_app.
    cbn [ApiCalls.headerOf]. simpl String.eqb. cbv iota.
    now destruct (ApiCalls.headerOf "Content-Type" (Api.headers options)).
  - reflexivity.
  - reflexivity.
Qed.

Lemma X11_request_sends_the_token_witness :
  ApiCalls.headerOf "Authorization"
    (Api.headers
       (ApiCalls.fetchInit (Api.mkClient (js "http://localhost:8001") (Some (js "abc")))
          (Api.mkInit (Some (js "POST")) None
             [("Authorization", js "Bearer other")])))
  = Some (js "Bearer abc").
Proof.
  destruct (X11_request_sends_the_token unit (fun _ => true)
              (fun _ _ => Api.Rejected _ Api.ThrowOther)
              (fun _ _ => Api.Rejected _ Api.ThrowOther)
              (Api.mkClient (js "http://localhost:8001") (Some (js "abc")))
              (js "/interviews")
              (Api.mkInit (Some (js "POST")) None
                 [("Authorization", js "Bearer other")])
              (js "abc") eq_refl) as (_ & H & _).
  - discriminate.
  - exact H.
Defined.

(** X12.  When [fetch] resolves and the body parses: a success status
    gives [{data}] with the parsed body; every other status gives [{error}]
    with a truthy value, the body's [message] when it has a truthy one. *)
Theorem X12_http_status_decides
  (number : Type) (isZero : number -> bool)
  (fetch : jsstring -> Api.RequestInit -> Api.Result (Api.Response number))
  (c : Api.ApiClient) (endpoint : jsstring) (options : Api.RequestInit)
  (response : Api.Response number) (d : Api.Json number) :
  fetch (ApiCalls.fetchUrl c endpoint) (ApiCalls.fetchInit c options)
  = Api.Resolved _ response ->
  Api.json number response = Api.Resolved _ d ->
  if Api.ok number response then
    Api.request number isZero fetch c endpoint options
    = Api.mkApiResponse number (Some d) None
  else
    exists e,
      Api.request number isZero fetch c endpoint options
      = Api.mkApiResponse number None (Some e) /\
      Api.jsTruthy number isZero e = true /\
      (forall fields m,
         d = Api.JObj number fields ->
         Api.getField number (js "message") fields = Some m ->
         Api.jsTruthy number isZero m = true -> e = m).
Proof.
  intros Hf Hj. unfold Api.request.
  change (Api.baseUrl c ++ endpoint) with (ApiCalls.fetchUrl c endpoint).
  change (Api.mkInit (Api.method options) (Api.body options)
            (Api.withAuth c (("Content-Type", js "application/json")
                               :: Api.headers options)))
    with (ApiCalls.fetchInit c options).
  rewrite Hf, Hj.
  destruct (Api.ok number response); simpl; [reflexivity|].
  destruct d as [|b|n|s|l|fields]; simpl;
    try (eexists; split; [reflexivity|]; split; [reflexivity|];
         intros fields m E; discriminate).
  destruct (Api.getField number (js "message") fields) as [m|] eqn:Em.
  - destruct (Api.jsTruthy number isZero m) eqn:Hm.
    + eexists. split; [reflexivity|]. split; [exact Hm|].
      intros fields' m' E Em' _. inversion E; subst. congruence.
    + eexists. split; [reflexivity|]. split; [reflexivity|].
      intros fields' m' E Em' Hm'. inversion E; subst. congruence.
  - eexists. split; [reflexivity|]. split; [reflexivity|].
    intros fields' m' E Em' _. inversion E; subst. congruence.
Qed.

Lemma X12_http_status_decides_witness :
  exists e,
    Api.request unit (fun _ => true)
      (fun _ _ =>
         Api.Resolved _
           (Api.mkResponse unit false 404
              (Api.Resolved _
                 (Api.JObj unit [(js "message", Api.JStr unit (js "Not found"))]))))
      (Api.mkClient (js "http://localhost:8001") None) (js "/feedback/7")
      (Api.mkInit None None [])
    = Api.mkApiResponse unit None (Some e) /\
    Api.jsTruthy unit (fun _ => true) e = true.
Proof.
  destruct (X12_http_status_decides unit (fun _ => true)
              (fun _ _ =>
                 Api.Resolved _
                   (Api.mkResponse unit false 404
                      (Api.Resolved _
                         (Api.JObj unit
                            [(js "message", Api.JStr unit (js "Not found"))]))))
              (Api.mkClient (js "http://localhost:8001") None) (js "/feedback/7")
              (Api.mkInit None None []) _ _ eq_refl eq_refl)
    as (e & H1 & H2 & _).
  exists e. split; [exact H1|exact H2].
Defined.

(** *** The [useInterview] hook *)

Ltac hook_eval :=
  cbv beta iota zeta delta
    [Hook.setInterviewId Hook.setCurrentQuestion Hook.setQuestionIndex
     Hook.setConversation Hook.setIsLoading Hook.setError
     Hook.setSessionActive Hook.upd Hook.call Hook.contextOf Hook.joinLines
     map Hook.hs Hook.calls
     Hook.interviewId Hook.currentQuestion Hook.questionIndex
     Hook.conversation Hook.isLoading Hook.error Hook.sessionActive].

Lemma present_nonempty s : s <> [] -> Hook.present (Some s) = Some s.
Proof. destruct s; [contradiction|reflexivity]. Qed.

(** X13.  A refused call leaves the hook's data alone.  With an interview
    and a question at hand, when the backend answers [submitAnswer],
    [getNextQuestion] or [endInterview] with an error, exactly one call
    has been made, the promise resolves to [false], and the state differs
    from the one before only in [error], which holds the message, and
    [isLoading], which is off: the log, the index, the question and
    [sessionActive] are untouched. *)
Theorem X13_hook_refused_call_changes_only_error
  (w : Hook.World) (id : jsstring) (q : Question) (e answer : jsstring)
  (now : Z) (dS dE : option bool) (dQ : option Question) :
  Hook.interviewId (Hook.hs w) = Some id -> id <> [] ->
  Hook.currentQuestion (Hook.hs w) = Some q -> e <> [] ->
  let refused :=
    Hook.mkState (Some id) (Some q) (Hook.questionIndex (Hook.hs w))
      (Hook.conversation (Hook.hs w)) false (Some e)
      (Hook.sessionActive (Hook.hs w)) in
  Hook.submitAnswer (Hook.hs w) answer (Hook.mkResponse dS (Some e)) now w
  = (Some false,
     Hook.mkWorld refused
       (Hook.calls w ++ [Hook.SubmitAnswer id (q_id q) answer])) /\
  Hook.getNextQuestion (Hook.hs w) None (Hook.mkResponse dQ (Some e)) now w
  = Hook.mkWorld refused
      (Hook.calls w
       ++ [Hook.GetQuestion id (Hook.contextOf (Hook.conversation (Hook.hs w)))]) /\
  Hook.endInterview (Hook.hs w) (Hook.mkResponse dE (Some e)) w
  = (Some false,
     Hook.mkWorld refused (Hook.calls w ++ [Hook.EndInterview id])).
Proof.
  intros Hid Hne Hq He refused. subst refused.
  destruct w as [[i cq qi cv il er sa] cs]. simpl in *. subst.
  destruct id as [|x id]; [contradiction|].
  destruct e as [|y e]; [contradiction|].
  repeat split.
Qed.

Lemma X13_hook_refused_call_changes_only_error_witness :
  fst (Hook.submitAnswer
         (Hook.mkState (Some (js "i1")) (Some q1) 0 [questionItem q1 0] false None true)
         (js "ok") (Hook.mkResponse None (Some (js "Unauthorized"))) 5
         (Hook.mkWorld
            (Hook.mkState (Some (js "i1")) (Some q1) 0 [questionItem q1 0] false None true)
            []))
  = Some false.
Proof.
  destruct (X13_hook_refused_call_changes_only_error
              (Hook.mkWorld
                 (Hook.mkState (Some (js "i1")) (Some q1) 0 [questionItem q1 0]
                    false None true) [])
              (js "i1") q1 (js "Unauthorized") (js "ok") 5 None None None eq_refl
              ltac:(discriminate) eq_refl ltac:(discriminate))
    as (H & _).
  simpl Hook.hs in H. rewrite H. reflexivity.
Defined.

(** X14.  [resetInterview] brings every field but [isLoading] back to its
    initial value, and after it [submitAnswer], [getNextQuestion()] and
    [endInterview] do nothing at all: no call is made, the state stays,
    and the promises resolve to [undefined]. *)
Theorem X14_hook_reset_disarms_the_calls
  (w : Hook.World) (answer : jsstring) (now : Z)
  (rS rE : Hook.Response bool) (rQ : Hook.Response Question) :
  let w' := Hook.resetInterview w in
  Hook.hs w'
  = Hook.mkState None None 0 [] (Hook.isLoading (Hook.hs w)) None false /\
  Hook.calls w' = Hook.calls w /\
  Hook.submitAnswer (Hook.hs w') answer rS now w' = (None, w') /\
  Hook.getNextQuestion (Hook.hs w') None rQ now w' = w' /\
  Hook.endInterview (Hook.hs w') rE w' = (None, w').
Proof.
  destruct w as [[i cq qi cv il er sa] cs]. repeat split.
Qed.

(** X15.  [startInterview]: when the backend creates the interview and
    returns a question, two calls have been made, the creation and the
    request for a question, the latter with the new id and an empty
    context whatever the log holds (the closure is that of the first
    render); the id is stored, the session is active, the question is the
    current one and is appended to the log.  When the creation is refused,
    that call is the only one, the session is not activated and only
    [error] and [isLoading] change. *)
Theorem X15_hook_start
  (w : Hook.World) (config : InterviewConfig) (d : Hook.Created)
  (q : Question) (e : jsstring) (now : Z) (dC : option Hook.Created)
  (first : Hook.Response Question) :
  Hook.c_id d <> [] -> e <> [] ->
  Hook.startInterview config (Hook.mkResponse (Some d) None)
    (Hook.mkResponse (Some q) None) now w
  = Hook.mkWorld
      (Hook.mkState (Some (Hook.c_id d)) (Some q)
         (Hook.questionIndex (Hook.hs w))
         (Hook.conversation (Hook.hs w) ++ [questionItem q now])
         false None true)
      (Hook.calls w
       ++ [Hook.CreateInterview config; Hook.GetQuestion (Hook.c_id d) []]) /\
  Hook.startInterview config (Hook.mkResponse dC (Some e)) first now w
  = Hook.mkWorld
      (Hook.mkState (Hook.interviewId (Hook.hs w))
         (Hook.currentQuestion (Hook.hs w)) (Hook.questionIndex (Hook.hs w))
         (Hook.conversation (Hook.hs w)) false (Some e)
         (Hook.sessionActive (Hook.hs w)))
      (Hook.calls w ++ [Hook.CreateInterview config]).
Proof.
  intros Hid He.
  destruct w as [[i cq qi cv il er sa] cs].
  destruct d as [id sid]. simpl in Hid.
  destruct id as [|x id]; [contradiction|].
  destruct e as [|y e]; [contradiction|].
  unfold Hook.startInterview, Hook.getNextQuestion, Hook.settle. simpl.
  hook_eval. rewrite <- app_assoc. split; reflexivity.
Qed.

Lemma X15_hook_start_witness :
  Hook.calls
    (Hook.startInterview sampleConfig
       (Hook.mkResponse (Some (Hook.mkCreated (js "i1") (js "s1"))) None)
       (Hook.mkResponse (Some q1) None) 0
       (Hook.mkWorld Hook.initialState []))
  = [Hook.CreateInterview sampleConfig; Hook.GetQuestion (js "i1") []].
Proof.
  destruct (X15_hook_start (Hook.mkWorld Hook.initialState []) sampleConfig
              (Hook.mkCreated (js "i1") (js "s1")) q1 (js "x") 0 None
              (Hook.mkResponse None None)
              ltac:(discriminate) ltac:(discriminate)) as (H & _).
  rewrite H. reflexivity.
Defined.

(** *** The [useSpeechRecognition] hook *)

Section SpeechFacts.

Variable number : Type.
Variable zero : number.

Lemma setConfidence_twice (a b : number) (w : Speech.World number) :
  Speech.setConfidence number a (Speech.setConfidence number b w)
  = Speech.setConfidence number a w.
Proof. destruct w as [[l t i e s c] r tr p n ef]. reflexivity. Qed.

Lemma loop_is_first_match (results : list (Speech.Result number))
  (w : Speech.World number) :
  fold_left (Speech.loopBody number) (rev results) ([], [], w)
  = (Speech.textOf number
       (Speech.firstWith number (Speech.isFinal number) results),
     Speech.textOf number
       (Speech.firstWith number
          (fun r => negb (Speech.isFinal number r)) results),
     Speech.withConfidenceOf number
       (Speech.firstWith number (Speech.isFinal number) results) w).
Proof.
  assert (E : forall init,
            fold_left (Speech.loopBody number) (rev results) init
            = fold_right (fun r acc => Speech.loopBody number acc r) init results).
  { intro init. rewrite <- (rev_involutive results) at 2.
    now rewrite fold_left_rev_right. }
  rewrite E. clear E.
  induction results as [|r rs IH]; [reflexivity|].
  simpl fold_right. rewrite IH. clear IH.
  unfold Speech.loopBody, Speech.firstWith. simpl find.
  destruct r as [[a|] f]; simpl.
  - destruct f; simpl.
    + f_equal.
      destruct (find _ rs) as [r'|]; simpl; [|reflexivity].
      destruct (Speech.first number r'); simpl; [|reflexivity].
      apply setConfidence_twice.
    + reflexivity.
  - rewrite !andb_false_r. reflexivity.
Qed.

(** X16.  [recognition.onresult], whose loop runs from the last result to
    the first and overwrites its variables, keeps the earliest results:
    the confidence stored is that of the first final result that has an
    alternative; when that result's text is not empty it is appended to
    the transcript, followed by a space, and the interim text is cleared;
    otherwise the interim text becomes that of the first non-final
    result, or empty. *)
Theorem X16_onresult_keeps_the_first_results
  (results : list (Speech.Result number)) (w : Speech.World number) :
  let final := Speech.firstWith number (Speech.isFinal number) results in
  let interim :=
    Speech.firstWith number (fun r => negb (Speech.isFinal number r)) results in
  Speech.onresult number results w
  = if truthy (Speech.textOf number final) then
      Speech.setInterimTranscript number []
        (Speech.setTranscript number
           (fun prev => prev ++ Speech.textOf number final ++ js " ")
           (Speech.withConfidenceOf number final w))
    else
      Speech.setInterimTranscript number (Speech.textOf number interim)
        (Speech.withConfidenceOf number final w).
Proof.
  intros final interim. unfold Speech.onresult.
  rewrite loop_is_first_match. reflexivity.
Qed.

Lemma pending_closures supported (w : Speech.World number) :
  Speech.reachable number zero supported w ->
  Forall (fun p => snd p = false) (Speech.pending number w).
Proof.
  induction 1 as [|w e w' Hr IH Hs].
  - destruct supported; constructor.
  - assert (Hclear : forall v : Speech.World number,
              Forall (fun p => snd p = false) (Speech.pending number v) ->
              Forall (fun p => snd p = false)
                (Speech.pending number (Speech.clearTimeoutRef number v))).
    { intros v Hv. unfold Speech.clearTimeoutRef.
      destruct (Speech.timeoutRef number v); [|exact Hv]. simpl.
      apply Forall_forall. intros p Hp. apply filter_In in Hp.
      rewrite Forall_forall in Hv. apply Hv, Hp. }
    destruct e; simpl in Hs;
      try (destruct (Speech.recognition number w); [|discriminate]);
      try (inversion Hs; subst w'; clear Hs).
    + unfold Speech.startListening.
      destruct (negb _ || negb _); [exact IH|].
      destruct (Speech.isListening number (Speech.ss number w)) eqn:El;
        [exact IH|].
      destruct throws; [exact IH|]. simpl.
      apply Forall_app. split; [exact IH|]. repeat constructor.
    + unfold Speech.stopListening. apply Hclear.
      destruct (_ && _); exact IH.
    + exact IH.
    + exact IH.
    + unfold Speech.onresult.
      destruct (fold_left _ _ _) as [[fin inter] w1] eqn:E.
      rewrite loop_is_first_match in E. inversion E; subst.
      assert (Hp : Speech.pending number
                     (Speech.withConfidenceOf number
                        (Speech.firstWith number (Speech.isFinal number) results) w)
                   = Speech.pending number w).
      { unfold Speech.withConfidenceOf. now destruct (Speech.firstWith _ _ _). }
      destruct (truthy _); simpl; rewrite Hp; exact IH.
    + exact IH.
    + exact IH.
    + destruct (Speech.closureOf id (Speech.pending number w)) as [b|];
        [|discriminate].
      inversion Hs; subst w'. unfold Speech.fire, Speech.stopListening.
      apply Hclear.
      assert (Hf : Forall (fun p => snd p = false)
                     (filter (fun p => negb (fst p =? id)) (Speech.pending number w))).
      { apply Forall_forall. intros p Hp. apply filter_In in Hp.
        rewrite Forall_forall in IH. apply IH, Hp. }
      destruct (_ && _); exact Hf.
Qed.

Lemma closureOf_In id b (l : list (nat * bool)) :
  Speech.closureOf id l = Some b -> In (id, b) l.
Proof.
  induction l as [|[i c] l IH]; simpl; [discriminate|].
  destruct (i =? id) eqn:E.
  - intro H. inversion H; subst. apply Nat.eqb_eq in E. subst. now left.
  - intro H. right. now apply IH.
Qed.

(** X17.  The automatic stop does not stop anything.  [startListening]
    arms its 30-second timeout only in a render where [isListening] is
    false, and the callback calls the [stopListening] of that render: when
    any pending timeout fires, [recognition.stop()] is not called and the
    state does not change; only the timeout reference is cleared. *)
Theorem X17_auto_stop_never_stops supported (w : Speech.World number)
  (id : nat) (b : bool) :
  Speech.reachable number zero supported w ->
  Speech.closureOf id (Speech.pending number w) = Some b ->
  exists w',
    Speech.step number zero (Speech.Timeout number id) w = Some w' /\
    Speech.effects number w' = Speech.effects number w /\
    Speech.ss number w' = Speech.ss number w /\
    Speech.timeoutRef number w' = None.
Proof.
  intros Hr Hc. simpl. rewrite Hc. eexists. split; [reflexivity|].
  assert (Hb : b = false).
  { assert (H := pending_closures _ _ Hr). rewrite Forall_forall in H.
    exact (H _ (closureOf_In _ _ _ Hc)). }
  subst b. unfold Speech.fire, Speech.stopListening.
  rewrite andb_false_r. unfold Speech.clearTimeoutRef. simpl.
  destruct (Speech.timeoutRef number w); repeat split.
Qed.

End SpeechFacts.

Lemma X17_auto_stop_never_stops_witness :
  exists w',
    Speech.step Z 0%Z (Speech.Timeout Z 1)
      (Speech.startListening Z
         (Speech.ss Z (Speech.mountEffect Z true (Speech.initialWorld Z 0%Z)))
         false (Speech.mountEffect Z true (Speech.initialWorld Z 0%Z)))
    = Some w' /\
    Speech.effects Z w' = [Speech.RecognitionStart] /\
    Speech.timeoutRef Z w' = None.
Proof.
  destruct (X17_auto_stop_never_stops Z 0%Z true
              (Speech.startListening Z
                 (Speech.ss Z (Speech.mountEffect Z true (Speech.initialWorld Z 0%Z)))
                 false (Speech.mountEffect Z true (Speech.initialWorld Z 0%Z)))
              1 false)
    as (w' & H1 & H2 & _ & H3).
  - apply (Speech.reach_step Z 0%Z true
             (Speech.mountEffect Z true (Speech.initialWorld Z 0%Z))
             (Speech.CallStart Z false));
      [apply Speech.reach_mount|reflexivity].
  - reflexivity.
  - exists w'. split; [exact H1|]. split; [rewrite H2; reflexivity|exact H3].
Defined.
